(** * Verification of smart_web_scraper.py (SmartWebScraper)

    A shallow embedding of the crawler in [src/smart_web_scraper.py]:
    the URL helpers it calls from [urllib.parse] (CPython 3.10 text,
    on 7-bit strings), [normalize_url], [is_same_domain], [extract_links],
    [extract_text], the fetch strategy [get_page_content] with the lazy
    Selenium initialisation, and the crawl loop [scrape] with its
    [finally] clause.

    The HTML parser, the network, the robots parser and the browser are
    collaborators: they are inputs of the model (a [World] record), and
    every observable effect (HTTP request, Chrome start, navigation, CSV
    row, driver quit) is recorded in an event log.  The classifier
    [detect_javascript_content] (with its regular expressions) and the
    robots.txt location computed by [__init__] are also embedded on their
    own. *)

From Stdlib Require Import String Ascii List Bool Arith Lia.
Import ListNotations.
Open Scope string_scope.

(** ** Python string primitives *)

Fixpoint str_take (n : nat) (s : string) : string :=
  match n, s with
  | O, _ => EmptyString
  | S n', String c s' => String c (str_take n' s')
  | S _, EmptyString => EmptyString
  end.

Fixpoint str_drop (n : nat) (s : string) : string :=
  match n, s with
  | O, _ => s
  | S n', String _ s' => str_drop n' s'
  | S _, EmptyString => EmptyString
  end.

(** [s.find(c)] for a one-character needle; [None] stands for -1. *)
Fixpoint find_char (c : ascii) (s : string) : option nat :=
  match s with
  | EmptyString => None
  | String d s' =>
      if Ascii.eqb c d then Some O else option_map S (find_char c s')
  end.

(** First index of a character satisfying [p]. *)
Fixpoint find_any (p : ascii -> bool) (s : string) : option nat :=
  match s with
  | EmptyString => None
  | String d s' => if p d then Some O else option_map S (find_any p s')
  end.

(** [s.rfind(c)]. *)
Fixpoint rfind_char (c : ascii) (s : string) : option nat :=
  match s with
  | EmptyString => None
  | String d s' =>
      match rfind_char c s' with
      | Some i => Some (S i)
      | None => if Ascii.eqb c d then Some O else None
      end
  end.

(** [c in s]. *)
Definition has_char (c : ascii) (s : string) : bool :=
  match find_char c s with Some _ => true | None => false end.

Fixpoint str_forallb (p : ascii -> bool) (s : string) : bool :=
  match s with
  | EmptyString => true
  | String c s' => p c && str_forallb p s'
  end.

Fixpoint str_filter (p : ascii -> bool) (s : string) : string :=
  match s with
  | EmptyString => EmptyString
  | String c s' => if p c then String c (str_filter p s') else str_filter p s'
  end.

(** [s.split(c, 1)] when [c in s]. *)
Definition split_once (c : ascii) (s : string) : option (string * string) :=
  match find_char c s with
  | Some i => Some (str_take i s, str_drop (S i) s)
  | None => None
  end.

(** [s.split(c)]: always at least one piece. *)
Fixpoint split_all (c : ascii) (s : string) : list string :=
  match s with
  | EmptyString => [EmptyString]
  | String d s' =>
      match split_all c s' with
      | [] => [] (* not reached: the result is never empty *)
      | p :: ps => if Ascii.eqb c d then EmptyString :: p :: ps
                   else String d p :: ps
      end
  end.

(** [sep.join(l)]. *)
Fixpoint join (sep : string) (l : list string) : string :=
  match l with
  | [] => EmptyString
  | [x] => x
  | x :: l' => x ++ sep ++ join sep l'
  end.

Definition ascii_lower (c : ascii) : ascii :=
  let n := nat_of_ascii c in
  if Nat.leb 65 n && Nat.leb n 90 then ascii_of_nat (n + 32)%nat else c.

Fixpoint lower (s : string) : string :=
  match s with
  | EmptyString => EmptyString
  | String c s' => String (ascii_lower c) (lower s')
  end.

(** [_WHATWG_C0_CONTROL_OR_SPACE]: the characters U+0000 .. U+0020. *)
Definition is_c0_or_space (c : ascii) : bool := Nat.leb (nat_of_ascii c) 32.

Fixpoint lstrip (p : ascii -> bool) (s : string) : string :=
  match s with
  | EmptyString => EmptyString
  | String c s' => if p c then lstrip p s' else s
  end.

(** [s.rstrip(chars)]: drop the trailing characters satisfying [p]. *)
Fixpoint rstrip (p : ascii -> bool) (s : string) : string :=
  match s with
  | EmptyString => EmptyString
  | String c s' =>
      let r := rstrip p s' in
      if String.eqb r EmptyString && p c then EmptyString else String c r
  end.

Definition strip (p : ascii -> bool) (s : string) : string :=
  rstrip p (lstrip p s).

Definition is_empty (s : string) : bool := String.eqb s EmptyString.

Definition str_mem (x : string) (l : list string) : bool :=
  existsb (String.eqb x) l.

(** ** urllib.parse (CPython 3.10.9 and later 3.10 releases)

    [None] is the [ValueError] raised by [urlsplit] on an unbalanced
    bracketed netloc.  [_checknetloc] only inspects non-ASCII netlocs, so
    it is the identity on the strings of this model; the parse cache does
    not change results. *)

Module UrlParse.

Definition uses_relative : list string :=
  [""; "ftp"; "http"; "gopher"; "nntp"; "imap"; "wais"; "file"; "https";
   "shttp"; "mms"; "prospero"; "rtsp"; "rtspu"; "sftp"; "svn"; "svn+ssh";
   "ws"; "wss"].

Definition uses_netloc : list string :=
  [""; "ftp"; "http"; "gopher"; "nntp"; "telnet"; "imap"; "wais"; "file";
   "mms"; "https"; "shttp"; "snews"; "prospero"; "rtsp"; "rtspu"; "rsync";
   "svn"; "svn+ssh"; "sftp"; "nfs"; "git"; "git+ssh"; "ws"; "wss"].

Definition uses_params : list string :=
  [""; "ftp"; "hdl"; "prospero"; "http"; "imap"; "https"; "shttp"; "rtsp";
   "rtspu"; "sip"; "sips"; "mms"; "sftp"; "tel"].

(** [scheme_chars = ascii_letters + digits + '+-.']. *)
Definition is_scheme_char (c : ascii) : bool :=
  let n := nat_of_ascii c in
  (Nat.leb 97 n && Nat.leb n 122) || (Nat.leb 65 n && Nat.leb n 90)
  || (Nat.leb 48 n && Nat.leb n 57)
  || Ascii.eqb c "+" || Ascii.eqb c "-" || Ascii.eqb c ".".

(** [url[0].isascii() and url[0].isalpha()]. *)
Definition starts_with_letter (url : string) : bool :=
  match url with
  | String c _ =>
      let n := nat_of_ascii c in
      (Nat.leb 97 n && Nat.leb n 122) || (Nat.leb 65 n && Nat.leb n 90)
  | EmptyString => false
  end.

(** [_UNSAFE_URL_BYTES_TO_REMOVE = ['\t', '\r', '\n']]. *)
Definition is_unsafe_byte (c : ascii) : bool :=
  let n := nat_of_ascii c in Nat.eqb n 9 || Nat.eqb n 13 || Nat.eqb n 10.

Definition remove_unsafe (s : string) : string :=
  str_filter (fun c => negb (is_unsafe_byte c)) s.

Record SplitResult := mkSplit {
  sr_scheme : string; sr_netloc : string; sr_path : string;
  sr_query : string; sr_fragment : string }.

Record ParseResult := mkParse {
  pr_scheme : string; pr_netloc : string; pr_path : string;
  pr_params : string; pr_query : string; pr_fragment : string }.

(** [_splitnetloc(url, start)]: the netloc runs up to the first of
    ['/?#'] after [start]. *)
Definition splitnetloc (url : string) (start : nat) : string * string :=
  let rest := str_drop start url in
  let is_delim c := Ascii.eqb c "/" || Ascii.eqb c "?" || Ascii.eqb c "#" in
  match find_any is_delim rest with
  | Some d => (str_take d rest, str_drop d rest)
  | None => (rest, EmptyString)
  end.

Definition urlsplit (url scheme : string) : option SplitResult :=
  let url := remove_unsafe (lstrip is_c0_or_space url) in
  let scheme := remove_unsafe (strip is_c0_or_space scheme) in
  let '(scheme, url) :=
    match find_char ":" url with
    | Some i =>
        if Nat.ltb 0 i && starts_with_letter url
           && str_forallb is_scheme_char (str_take i url)
        then (lower (str_take i url), str_drop (S i) url)
        else (scheme, url)
    | None => (scheme, url)
    end in
  let '(netloc, url) :=
    if prefix "//" url then splitnetloc url 2 else (EmptyString, url) in
  if (has_char "[" netloc && negb (has_char "]" netloc))
     || (has_char "]" netloc && negb (has_char "[" netloc))
  then None (* ValueError("Invalid IPv6 URL") *)
  else
  let '(url, fragment) :=
    match split_once "#" url with
    | Some p => p
    | None => (url, EmptyString)
    end in
  let '(url, query) :=
    match split_once "?" url with
    | Some p => p
    | None => (url, EmptyString)
    end in
  Some (mkSplit scheme netloc url query fragment).

(** [_splitparams(url)], called only when [';' in url]. *)
Definition splitparams (url : string) : string * string :=
  if has_char "/" url then
    match rfind_char "/" url with
    | Some j =>
        match find_char ";" (str_drop j url) with
        | Some k => (str_take (j + k) url, str_drop (S (j + k)) url)
        | None => (url, EmptyString)
        end
    | None => (url, EmptyString) (* not reached: '/' in url *)
    end
  else
    match find_char ";" url with
    | Some i => (str_take i url, str_drop (S i) url)
    | None => (str_take (String.length url - 1) url, url) (* i = -1 *)
    end.

Definition urlparse (url scheme : string) : option ParseResult :=
  match urlsplit url scheme with
  | None => None
  | Some (mkSplit scheme netloc url query fragment) =>
      let '(url, params) :=
        if str_mem scheme uses_params && has_char ";" url
        then splitparams url else (url, EmptyString) in
      Some (mkParse scheme netloc url params query fragment)
  end.

Definition urlunsplit (scheme netloc url query fragment : string) : string :=
  let url :=
    if negb (is_empty netloc)
       || (negb (is_empty scheme) && str_mem scheme uses_netloc
           && negb (prefix "//" url))
    then
      let url := if negb (is_empty url) && negb (prefix "/" url)
                 then "/" ++ url else url in
      "//" ++ netloc ++ url
    else url in
  let url := if negb (is_empty scheme) then scheme ++ ":" ++ url else url in
  let url := if negb (is_empty query) then url ++ "?" ++ query else url in
  if negb (is_empty fragment) then url ++ "#" ++ fragment else url.

Definition urlunparse (scheme netloc url params query fragment : string)
  : string :=
  let url := if negb (is_empty params) then url ++ ";" ++ params else url in
  urlunsplit scheme netloc url query fragment.

(** [segments[1:-1] = filter(None, segments[1:-1])]. *)
Definition filter_middle (segs : list string) : list string :=
  match segs with
  | [] => []
  | [x] => [x]
  | x :: rest =>
      x :: app (filter (fun s => negb (is_empty s)) (removelast rest))
               [last rest EmptyString]
  end.

(** The [for seg in segments] loop building [resolved_path]. *)
Definition resolve_segments (segs : list string) : list string :=
  fold_left
    (fun resolved seg =>
       if String.eqb seg ".." then removelast resolved (* pop, or pass *)
       else if String.eqb seg "." then resolved
       else app resolved [seg])
    segs [].

Definition urljoin (base url : string) : option string :=
  if is_empty base then Some url else
  if is_empty url then Some base else
  match urlparse base EmptyString with
  | None => None
  | Some (mkParse bscheme bnetloc bpath bparams bquery _) =>
  match urlparse url bscheme with
  | None => None
  | Some (mkParse scheme netloc path params query fragment) =>
  if negb (String.eqb scheme bscheme) || negb (str_mem scheme uses_relative)
  then Some url else
  if str_mem scheme uses_netloc && negb (is_empty netloc)
  then Some (urlunparse scheme netloc path params query fragment) else
  let netloc := if str_mem scheme uses_netloc then bnetloc else netloc in
  if is_empty path && is_empty params then
    let query := if is_empty query then bquery else query in
    Some (urlunparse scheme netloc bpath bparams query fragment)
  else
  let base_parts :=
    let bp := split_all "/" bpath in
    if negb (is_empty (last bp EmptyString)) then removelast bp else bp in
  let segments :=
    if prefix "/" path then split_all "/" path
    else filter_middle (app base_parts (split_all "/" path)) in
  let resolved_path := resolve_segments segments in
  let last_seg := last segments EmptyString in
  let resolved_path :=
    if String.eqb last_seg "." || String.eqb last_seg ".."
    then app resolved_path [EmptyString] else resolved_path in
  let joined := join "/" resolved_path in
  let joined := if is_empty joined then "/" else joined in
  Some (urlunparse scheme netloc joined params query fragment)
  end
  end.

Example urljoin_rel :
  urljoin "http://ex.com/a/b" "../c?x=1" = Some "http://ex.com/c?x=1".
Proof. reflexivity. Qed.

Example urljoin_abs_path :
  urljoin "https://ex.com/a/b" "/d/./e" = Some "https://ex.com/d/e".
Proof. reflexivity. Qed.

Example urljoin_netloc :
  urljoin "https://ex.com/a" "//other.org/x" = Some "https://other.org/x".
Proof. reflexivity. Qed.

Example urljoin_other_scheme :
  urljoin "https://ex.com/a" "ftp://h/x" = Some "ftp://h/x".
Proof. reflexivity. Qed.

Example urljoin_bad_ipv6 : urljoin "https://ex.com/a" "//[x/y" = None.
Proof. reflexivity. Qed.

End UrlParse.

(** ** The scraper *)

Module Scraper.
Import UrlParse.

(** What [requests.get(url, ...)] does: a response, or an exception
    (connection error, timeout, invalid URL, ...). *)
Inductive http_result :=
| HttpResponse (status_code : nat) (text : string)
| HttpError.

(** What [self.driver.get(url)] followed by [page_source] gives. *)
Inductive nav_result :=
| PageSource (src : string)
| NavError.

(** The outside world as one fetch of a URL sees it; [chrome_starts] is
    whether [webdriver.Chrome(options=options)] returns or raises. *)
Record env := mkEnv {
  requests_get : http_result;
  chrome_starts : bool;
  driver_get : nav_result }.

(** The collaborators: robots parser, classifier, HTML parser, Selenium
    import and the network. *)
Record World := mkWorld {
  robots_can_fetch : string -> bool;
    (* self.robot_parser.can_fetch(UA, url) *)
  detect_javascript_content : string -> bool;
  anchor_hrefs : string -> list string;
    (* [a['href'] for a in soup.find_all('a', href=True)] *)
  soup_text : string -> string;
    (* soup.get_text(separator=' ') once script, style, ... are removed *)
  selenium_importable : bool;
    (* whether 'from selenium import webdriver' succeeds *)
  net : string -> env }.

(** The attributes fixed by [__init__]. *)
Record Config := mkConfig {
  base_url : string;
  respect_robots : bool;
  robot_parser_completed : bool }.

(** [__init__]: [robot_parser_completed] is set only when
    [self.robot_parser.read()] returns without raising. *)
Definition make_scraper (base : string) (respect : bool)
    (robots_read_raises : bool) : Config :=
  mkConfig base respect (negb robots_read_raises).


(** Observable effects, in program order. *)
Inductive event :=
| EvRequest (url : string)          (* requests.get(url) *)
| EvChromeStart (ok : bool)         (* webdriver.Chrome(...) returned / raised *)
| EvDriverGet (url : string)        (* self.driver.get(url) *)
| EvRow (url text : string)         (* save_to_csv(url, text) *)
| EvQuit.                           (* self.driver.quit() *)

Inductive exn := ImportError | ValueError.

Inductive result (A : Type) := Ok (a : A) | Raise (e : exn).
Arguments Ok {A} a.
Arguments Raise {A} e.

(** Mutable state of one scraper: [queue], [visited_urls], [driver]
    (is it not [None]), [tried_selenium], the local [page_count] of
    [scrape], and the event log. *)
Record St := mkSt {
  queue : list string;
  visited : list string;
  driver : bool;
  tried_selenium : bool;
  page_count : nat;
  log : list event }.

Definition emit (e : event) (st : St) : St :=
  mkSt (queue st) (visited st) (driver st) (tried_selenium st)
       (page_count st) (app (log st) [e]).
Definition set_driver (st : St) : St :=
  mkSt (queue st) (visited st) true (tried_selenium st) (page_count st) (log st).
Definition set_tried (st : St) : St :=
  mkSt (queue st) (visited st) (driver st) true (page_count st) (log st).
Definition set_queue (q : list string) (st : St) : St :=
  mkSt q (visited st) (driver st) (tried_selenium st) (page_count st) (log st).
Definition add_visited (url : string) (st : St) : St :=
  mkSt (queue st)
       (if str_mem url (visited st) then visited st else app (visited st) [url])
       (driver st) (tried_selenium st) (page_count st) (log st).
Definition incr_page_count (st : St) : St :=
  mkSt (queue st) (visited st) (driver st) (tried_selenium st)
       (S (page_count st)) (log st).

(** The state right after [__init__]: [self.queue = [base_url]]. *)
Definition init_state (cfg : Config) : St :=
  mkSt [base_url cfg] [] false false 0 [].

Definition initialize_selenium (w : World) (e : env) (st : St)
  : result bool * St :=
  if driver st then (Ok true, st)
  else if negb (selenium_importable w) then (Raise ImportError, st)
  else if chrome_starts e
  then (Ok true, emit (EvChromeStart true) (set_driver st))
  else (Ok false, emit (EvChromeStart false) st).

Definition can_fetch (cfg : Config) (w : World) (url : string) : bool :=
  if negb (respect_robots cfg) then true else robots_can_fetch w url.

Definition is_same_domain (cfg : Config) (url : string) : option bool :=
  match urlparse (base_url cfg) EmptyString with
  | None => None
  | Some b =>
      match urlparse url EmptyString with
      | None => None
      | Some u => Some (String.eqb (pr_netloc b) (pr_netloc u))
      end
  end.

Definition normalize_url (cfg : Config) (url : string) : option string :=
  if prefix "http" url then Some url else urljoin (base_url cfg) url.

(** The [except Exception] branch of [get_page_content]: Selenium as a
    fallback after [requests.get] (or anything else in the [try]) raised. *)
Definition request_error_fallback (w : World) (e : env) (url : string)
    (st : St) : result (option string) * St :=
  if tried_selenium st then (Ok None, st) else
  match initialize_selenium w e st with
  | (Raise x, st1) => (Raise x, st1)
  | (Ok false, st1) => (Ok None, st1)
  | (Ok true, st1) =>
      let st2 := emit (EvDriverGet url) (set_tried st1) in
      match driver_get e with
      | PageSource src => (Ok (Some src), st2)
      | NavError => (Ok None, st2)   (* logged, then 'return None' *)
      end
  end.

Definition get_page_content (w : World) (url : string) (st : St)
  : result (option string) * St :=
  let e := net w url in
  let st := emit (EvRequest url) st in
  match requests_get e with
  | HttpError => request_error_fallback w e url st
  | HttpResponse code html =>
      if Nat.eqb code 200 then
        if detect_javascript_content w html then
          if tried_selenium st then (Ok (Some html), st) else
          match initialize_selenium w e st with
          | (Raise _, st1) =>
              (* the ImportError is caught by the outer except *)
              request_error_fallback w e url st1
          | (Ok false, st1) => (Ok (Some html), st1)
          | (Ok true, st1) =>
              let st2 := emit (EvDriverGet url) (set_tried st1) in
              match driver_get e with
              | PageSource src => (Ok (Some src), st2)
              | NavError => (Ok (Some html), st2)
              end
          end
        else (Ok (Some html), st)
      else (Ok None, st)
  end.

(** Python's [str.isspace] / regex [\s] on the 8-bit characters:
    [\t \n \x0b \x0c \r \x1c-\x1f], space, [\x85] and [\xa0]. *)
Definition is_space (c : ascii) : bool :=
  let n := nat_of_ascii c in
  (Nat.leb 9 n && Nat.leb n 13) || (Nat.leb 28 n && Nat.leb n 32)
  || Nat.eqb n 133 || Nat.eqb n 160.

(** [re.sub(r'\s+', ' ', text)]: every maximal run of whitespace becomes
    one space; [in_run] says the previous character was whitespace. *)
Fixpoint sub_ws (in_run : bool) (s : string) : string :=
  match s with
  | EmptyString => EmptyString
  | String c s' =>
      if is_space c then
        if in_run then sub_ws true s' else String " " (sub_ws true s')
      else String c (sub_ws false s')
  end.

(** [extract_text]; [None] is a [None] argument. *)
Definition extract_text (w : World) (html_content : option string) : string :=
  match html_content with
  | None => EmptyString
  | Some h =>
      if is_empty h then EmptyString
      else strip is_space (sub_ws false (soup_text w h))
  end.

(** The [for a_tag in ...] loop of [extract_links]; [None] is a
    [ValueError] raised by [urljoin] or [urlparse]. *)
Fixpoint extract_links_loop (cfg : Config) (hrefs : list string)
  : option (list string) :=
  match hrefs with
  | [] => Some []
  | href :: rest =>
      if prefix "#" href || prefix "javascript:" href
         || prefix "mailto:" href || prefix "tel:" href
      then extract_links_loop cfg rest
      else
        match normalize_url cfg href with
        | None => None
        | Some full_url =>
            match is_same_domain cfg full_url with
            | None => None
            | Some same =>
                match extract_links_loop cfg rest with
                | None => None
                | Some links => Some (if same then full_url :: links else links)
                end
            end
        end
  end.

Definition extract_links (cfg : Config) (w : World) (html_content : string)
  : option (list string) :=
  if is_empty html_content then Some []
  else extract_links_loop cfg (anchor_hrefs w html_content).

(** [for link in links: if link not in visited and link not in queue:
    queue.append(link)]. *)
Definition enqueue_links (links : list string) (st : St) : St :=
  fold_left
    (fun st link =>
       if negb (str_mem link (visited st)) && negb (str_mem link (queue st))
       then set_queue (app (queue st) [link]) st else st)
    links st.

Inductive iter_result :=
| Continue (st : St)     (* next loop test *)
| Propagate (st : St).   (* an exception leaves the while loop *)

(** One iteration of the [while] body after [url = self.queue.pop(0)];
    [time.sleep] has no effect on the state. *)
Definition scrape_iteration (cfg : Config) (w : World) (url : string)
    (st : St) : iter_result :=
  if str_mem url (visited st)
     || (robot_parser_completed cfg && negb (can_fetch cfg w url))
  then Continue st
  else
    let st := add_visited url st in
    match get_page_content w url st with
    | (Raise _, st1) => Propagate st1
    | (Ok html, st1) =>
        match html with
        | Some h =>
            if is_empty h then Continue (incr_page_count st1) else
            let text_content := extract_text w (Some h) in
            let st2 := emit (EvRow url text_content) st1 in
            match extract_links cfg w h with
            | None => Propagate st2
            | Some links => Continue (incr_page_count (enqueue_links links st2))
            end
        | None => Continue (incr_page_count st1)
        end
    end.

Inductive loop_result :=
| LoopExit (st : St)      (* the while test failed *)
| LoopRaised (st : St)    (* an exception propagated out of the loop *)
| OutOfFuel (st : St).    (* still running after [fuel] tests *)

Definition loop_state (r : loop_result) : St :=
  match r with LoopExit st | LoopRaised st | OutOfFuel st => st end.

Definition budget_left (max_pages : option nat) (st : St) : bool :=
  match max_pages with None => true | Some m => Nat.ltb (page_count st) m end.

(** The [while] loop of [scrape], run for at most [fuel] tests. *)
Fixpoint scrape_loop (cfg : Config) (w : World) (max_pages : option nat)
    (fuel : nat) (st : St) : loop_result :=
  match fuel with
  | O => OutOfFuel st
  | S fuel' =>
      match queue st with
      | [] => LoopExit st
      | url :: rest =>
          if budget_left max_pages st then
            match scrape_iteration cfg w url (set_queue rest st) with
            | Continue st' => scrape_loop cfg w max_pages fuel' st'
            | Propagate st' => LoopRaised st'
            end
          else LoopExit st
      end
  end.

(** The [finally] clause: [if self.driver: self.driver.quit()]. *)
Definition scrape_finally (st : St) : St :=
  if driver st then emit EvQuit st else st.

Inductive scrape_outcome := Returned | Propagated.

(** [scrape(max_pages)]: [None] when the loop has not ended within
    [fuel] tests. *)
Definition scrape (cfg : Config) (w : World) (max_pages : option nat)
    (fuel : nat) (st : St) : option (scrape_outcome * St) :=
  match scrape_loop cfg w max_pages fuel st with
  | LoopExit st' => Some (Returned, scrape_finally st')
  | LoopRaised st' => Some (Propagated, scrape_finally st')
  | OutOfFuel _ => None
  end.

End Scraper.

(** ** [detect_javascript_content]

    The classifier, which the [World] of the crawl takes as a
    collaborator, embedded on its own.  Strings are sequences of code
    points 0 .. 255.  [re.search(pattern, s, re.I)] is modelled for the
    fifteen patterns of the method: literal characters compared up to
    ASCII case (no other code point of this range folds to an ASCII
    letter), [.] (any character but a newline), [\s*], [.+?] and the class
    of the two quote characters.  Laziness does not change whether a search succeeds. *)

Module Detect.

Inductive re_item :=
| RChar (c : ascii)     (* a literal character, under re.I *)
| RAny                  (* . *)
| RSpaceStar            (* \s* *)
| RAnyPlus              (* .+? *)
| RQuote.               (* the class of the two quotes *)

Definition is_newline (c : ascii) : bool := Nat.eqb (nat_of_ascii c) 10.

(** [Scraper.is_space] is Python's [\s] on these code points. *)
Definition is_space (c : ascii) : bool := Scraper.is_space c.

(** Does the pattern match at the start of [s] (a prefix of [s])? *)
Fixpoint match_here (p : list re_item) (s : string) {struct p} : bool :=
  match p with
  | [] => true
  | RChar c :: p' =>
      match s with
      | String d s' => Ascii.eqb (ascii_lower c) (ascii_lower d) && match_here p' s'
      | EmptyString => false
      end
  | RAny :: p' =>
      match s with
      | String d s' => negb (is_newline d) && match_here p' s'
      | EmptyString => false
      end
  | RQuote :: p' =>
      match s with
      | String d s' =>
          (Nat.eqb (nat_of_ascii d) 39 || Nat.eqb (nat_of_ascii d) 34)
          && match_here p' s'
      | EmptyString => false
      end
  | RSpaceStar :: p' =>
      (fix star (s : string) : bool :=
         match_here p' s ||
         match s with
         | String d s' => is_space d && star s'
         | EmptyString => false
         end) s
  | RAnyPlus :: p' =>
      (fix plus (s : string) : bool :=
         match s with
         | String d s' => negb (is_newline d) && (match_here p' s' || plus s')
         | EmptyString => false
         end) s
  end.

(** [re.search(p, s, re.I) is not None]: a match starting at some index
    [0 .. len(s)]. *)
Fixpoint search (p : list re_item) (s : string) : bool :=
  match_here p s ||
  match s with
  | String _ s' => search p s'
  | EmptyString => false
  end.

Definition lit (s : string) : list re_item := map RChar (list_ascii_of_string s).

(** The double quote, which a string literal of this file does not hold. *)
Definition dq : string := String (ascii_of_nat 34) EmptyString.

Definition js_framework_patterns : list (list re_item) :=
  [lit "react"; lit "vue"; lit "angular"; app (lit "next") (RAny :: lit "js");
   lit "nuxt"; lit "data-react"; lit "ng-app"; lit "v-for";
   lit "__NEXT_DATA__"; app (lit "window") (RAny :: lit "__NUXT__")].

Definition js_content_patterns : list (list re_item) :=
  [app (lit ("<div id=" ++ dq ++ "app" ++ dq ++ ">")) (RSpaceStar :: lit "</div>");
   app (lit ("<div id=" ++ dq ++ "root" ++ dq ++ ">")) (RSpaceStar :: lit "</div>");
   app (lit "getElementById(") (RAnyPlus :: lit ").innerHTML");
   lit "document.write(";
   app (lit "display:")
       (RSpaceStar :: app (lit "none;") (RAnyPlus :: RQuote :: app (lit "initial") [RQuote]))].

(** What [BeautifulSoup(html_content, 'html.parser')] shows the method:
    [script.string] and [script.get('src')] of a [<script>] tag, and the
    [<body>] ([soup.find('body')], a tag being truthy) as its
    [get_text(strip=True)]. *)
Record ScriptTag := mkScript {
  script_string : option string;
  script_src : option string }.

Record SoupView := mkSoup {
  body_text : option string;
  scripts : list ScriptTag }.

Definition any_pattern (ps : list (list re_item)) (s : string) : bool :=
  existsb (fun p => search p s) ps.

(** The body of [for script in scripts]: a truthy string or [src]
    matching a framework pattern. *)
Definition script_suggests_js (sc : ScriptTag) : bool :=
  match script_string sc with
  | Some s => negb (is_empty s) && any_pattern js_framework_patterns s
  | None => false
  end
  || match script_src sc with
     | Some s => negb (is_empty s) && any_pattern js_framework_patterns s
     | None => false
     end.

(** The scan of the entire markup. *)
Definition markup_scan (html_content : string) : bool :=
  any_pattern (app js_framework_patterns js_content_patterns) html_content.

Definition detect_javascript_content (soup : string -> SoupView)
    (html_content : string) : bool :=
  let v := soup html_content in
  match body_text v with
  | Some t => Nat.ltb (String.length t) 100 && existsb script_suggests_js (scripts v)
  | None => false
  end
  || markup_scan html_content.

End Detect.

(** * Properties *)

Import UrlParse Scraper.

(** ** String facts *)

Lemma str_append_assoc (a b c : string) : (a ++ b) ++ c = a ++ (b ++ c).
Proof. induction a as [|x a IH]; simpl; [reflexivity | now rewrite IH]. Qed.

Lemma prefix_app_inv (p s : string) :
  prefix p s = true -> exists r, s = p ++ r.
Proof.
  revert s; induction p as [|c p IH]; intros s H.
  - exists s; reflexivity.
  - destruct s as [|d s]; [discriminate|].
    simpl in H. destruct (ascii_dec c d) as [->|]; [|discriminate].
    destruct (IH s H) as [r ->]. exists r; reflexivity.
Qed.

Lemma prefix_app (p r : string) : prefix p (p ++ r) = true.
Proof.
  induction p as [|c p IH]; simpl.
  - destruct r; reflexivity.
  - destruct (ascii_dec c c); [exact IH | contradiction].
Qed.

(** ** Text normalisation in [extract_text] *)

Definition starts_with_space (s : string) : bool :=
  match s with String c _ => is_space c | EmptyString => false end.

(** No two adjacent whitespace characters. *)
Fixpoint no_double_space (s : string) : bool :=
  match s with
  | EmptyString => true
  | String c s' =>
      negb (is_space c && starts_with_space s') && no_double_space s'
  end.

Fixpoint ends_with_space (s : string) : bool :=
  match s with
  | EmptyString => false
  | String c s' => if is_empty s' then is_space c else ends_with_space s'
  end.

Lemma sub_ws_in_run_head (s : string) :
  starts_with_space (sub_ws true s) = false.
Proof.
  induction s as [|c s IH]; simpl; [reflexivity|].
  destruct (is_space c) eqn:Hc; simpl; [exact IH | now rewrite Hc].
Qed.

Lemma sub_ws_no_double (b : bool) (s : string) :
  no_double_space (sub_ws b s) = true.
Proof.
  revert b; induction s as [|c s IH]; intros b; simpl; [reflexivity|].
  destruct (is_space c) eqn:Hc.
  - destruct b; [apply IH|]. simpl. rewrite sub_ws_in_run_head, IH.
    reflexivity.
  - simpl. rewrite Hc, IH. reflexivity.
Qed.

Lemma lstrip_no_double (p : ascii -> bool) (s : string) :
  no_double_space s = true -> no_double_space (lstrip p s) = true.
Proof.
  induction s as [|c s IH]; simpl; intros H; [reflexivity|].
  destruct (p c); [|exact H].
  apply IH. apply andb_true_iff in H as [_ H]. exact H.
Qed.

Lemma lstrip_head (s : string) :
  starts_with_space (lstrip is_space s) = false.
Proof.
  induction s as [|c s IH]; simpl; [reflexivity|].
  destruct (is_space c) eqn:Hc; [exact IH | simpl; exact Hc].
Qed.

(** [rstrip] keeps the first character, or returns the empty string. *)
Lemma rstrip_head (p : ascii -> bool) (s : string) :
  rstrip p s = EmptyString
  \/ exists c t t', s = String c t /\ rstrip p s = String c t'.
Proof.
  destruct s as [|c t]; [left; reflexivity|]. simpl.
  destruct (String.eqb (rstrip p t) EmptyString && p c); [left; reflexivity|].
  right; exists c, t, (rstrip p t); split; reflexivity.
Qed.

Lemma rstrip_no_double (p : ascii -> bool) (s : string) :
  no_double_space s = true -> no_double_space (rstrip p s) = true.
Proof.
  induction s as [|c s IH]; simpl; intros H; [reflexivity|].
  apply andb_true_iff in H as [H1 H2].
  destruct (String.eqb (rstrip p s) EmptyString && p c); [reflexivity|].
  simpl. rewrite (IH H2), andb_true_r.
  destruct (rstrip_head p s) as [E | (d & t & t' & -> & E)].
  - rewrite E. simpl. now rewrite andb_false_r.
  - rewrite E. exact H1.
Qed.

Lemma rstrip_keeps_head (p : ascii -> bool) (s : string) :
  starts_with_space s = false -> starts_with_space (rstrip p s) = false.
Proof.
  intros H. destruct (rstrip_head p s) as [E | (d & t & t' & -> & E)];
    rewrite E; [reflexivity | exact H].
Qed.

Lemma rstrip_tail (s : string) :
  ends_with_space (rstrip is_space s) = false.
Proof.
  induction s as [|c s IH]; simpl; [reflexivity|].
  destruct (String.eqb (rstrip is_space s) EmptyString) eqn:E.
  - destruct (is_space c) eqn:Hc; simpl; [reflexivity|].
    unfold is_empty. rewrite E. exact Hc.
  - simpl. unfold is_empty. rewrite E. exact IH.
Qed.

Lemma strip_normalized (s : string) :
  no_double_space s = true ->
  no_double_space (strip is_space s) = true
  /\ starts_with_space (strip is_space s) = false
  /\ ends_with_space (strip is_space s) = false.
Proof.
  intros H. unfold strip. split; [|split].
  - apply rstrip_no_double, lstrip_no_double, H.
  - apply rstrip_keeps_head, lstrip_head.
  - apply rstrip_tail.
Qed.

(** ** Claim C9 *)

(** C9: for every markup (and whatever text the HTML parser yields),
    [extract_text] returns a string with no two consecutive whitespace
    characters and no leading or trailing whitespace; for [None] or empty
    markup it returns the empty string. *)
Theorem extract_text_normalized (w : World) (html_content : option string) :
  let t := extract_text w html_content in
  no_double_space t = true
  /\ starts_with_space t = false
  /\ ends_with_space t = false
  /\ (html_content = None \/ html_content = Some EmptyString -> t = EmptyString).
Proof.
  simpl. destruct html_content as [h|].
  - unfold extract_text. destruct (is_empty h) eqn:He.
    + repeat split; reflexivity.
    + destruct (strip_normalized (sub_ws false (soup_text w h))
                  (sub_ws_no_double false _)) as (A & B & C).
      repeat split; try assumption.
      intros [D | D]; [discriminate|]. injection D as ->. discriminate.
  - repeat split; reflexivity.
Qed.

(** ** Claim C6 *)

(** C6: when [requests.get] answers with a status code other than 200,
    [get_page_content] returns [None]; the only effect is the request
    itself: Selenium is neither started nor used, and [driver] and
    [tried_selenium] are unchanged. *)
Theorem get_page_content_non_200 (w : World) (url : string) (st : St)
    (code : nat) (html : string) :
  requests_get (net w url) = HttpResponse code html ->
  code <> 200 ->
  get_page_content w url st = (Ok None, emit (EvRequest url) st).
Proof.
  intros Hget Hcode. unfold get_page_content. rewrite Hget.
  destruct (Nat.eqb_spec code 200) as [E|_]; [contradiction | reflexivity].
Qed.

Definition world_404 : World :=
  mkWorld (fun _ => true) (fun _ => true) (fun _ => []) (fun _ => "")
          true (fun _ => mkEnv (HttpResponse 404 "<html></html>") true
                               (PageSource "<html>rendered</html>")).

Definition st_fresh : St := init_state (make_scraper "http://ex.com/" true false).

Lemma get_page_content_non_200_witness :
  requests_get (net world_404 "http://ex.com/") = HttpResponse 404 "<html></html>"
  /\ 404 <> 200
  /\ get_page_content world_404 "http://ex.com/" st_fresh
     = (Ok None, emit (EvRequest "http://ex.com/") st_fresh).
Proof.
  split; [reflexivity|]. split; [discriminate|].
  apply (get_page_content_non_200 world_404 "http://ex.com/" st_fresh 404
           "<html></html>"); [reflexivity | discriminate].
Defined.

(** ** Frame of one fetch *)

Definition selenium_event (e : event) : bool :=
  match e with EvChromeStart _ | EvDriverGet _ => true | _ => false end.

(** What a fetch may do after its [requests.get]: log Selenium events and
    set [driver] (only through a successful Chrome start) and
    [tried_selenium]; nothing else of the state moves. *)
Definition selenium_effect (st st1 : St) : Prop :=
  queue st1 = queue st /\ visited st1 = visited st
  /\ page_count st1 = page_count st
  /\ exists extra, log st1 = app (log st) extra
     /\ forallb selenium_event extra = true
     /\ (driver st1 = true <-> driver st = true \/ In (EvChromeStart true) extra).

Lemma get_page_content_frame (w : World) (url : string) (st : St)
    (r : result (option string)) (st1 : St) :
  get_page_content w url st = (r, st1) ->
  selenium_effect (emit (EvRequest url) st) st1.
Proof.
  destruct st as [q v d t pc l]. unfold get_page_content.
  unfold request_error_fallback, initialize_selenium, selenium_effect.
  destruct (net w url) as [g ok nav]; simpl.
  destruct g as [code html|];
    [destruct (Nat.eqb code 200), (detect_javascript_content w html)|];
    destruct d, t, (selenium_importable w), ok, nav;
    simpl; intros H; injection H as <- <-; simpl;
    (split; [reflexivity|]); (split; [reflexivity|]); (split; [reflexivity|]);
    eexists; (split; [rewrite <- ?app_assoc; reflexivity|]);
    split; try reflexivity; simpl; intuition congruence.
Qed.

Lemma enqueue_links_frame (links : list string) (st : St) :
  let st' := enqueue_links links st in
  visited st' = visited st /\ driver st' = driver st
  /\ page_count st' = page_count st /\ log st' = log st
  /\ (forall u, In u (queue st') -> In u (queue st) \/ In u links).
Proof.
  unfold enqueue_links. revert st.
  induction links as [|a links IH]; intros st; simpl.
  - repeat split; auto.
  - destruct (IH (if negb (str_mem a (visited st)) && negb (str_mem a (queue st))
                  then set_queue (app (queue st) [a]) st else st))
      as (V & D & P & L & Q).
    rewrite V, D, P, L.
    destruct (negb (str_mem a (visited st)) && negb (str_mem a (queue st)));
      simpl; repeat split; auto;
      intros u Hu; destruct (Q u Hu) as [Hq|Hq]; auto;
      apply in_app_or in Hq as [Hq|[Hq|[]]]; auto.
Qed.

Definition skip_test (cfg : Config) (w : World) (url : string) (st : St)
  : bool :=
  str_mem url (visited st)
  || (robot_parser_completed cfg && negb (can_fetch cfg w url)).

(** The outcomes of one loop body, after the pop. *)
Lemma scrape_iteration_shape (cfg : Config) (w : World) (url : string)
    (st : St) :
  (skip_test cfg w url st = true
   /\ scrape_iteration cfg w url st = Continue st)
  \/ (skip_test cfg w url st = false
   /\ exists res st1,
      get_page_content w url (add_visited url st) = (res, st1)
      /\ (scrape_iteration cfg w url st = Propagate st1
          \/ scrape_iteration cfg w url st = Continue (incr_page_count st1)
          \/ (exists text,
               scrape_iteration cfg w url st = Propagate (emit (EvRow url text) st1))
          \/ (exists text links html,
               res = Ok (Some html)
               /\ extract_links cfg w html = Some links
               /\ scrape_iteration cfg w url st
                  = Continue (incr_page_count
                                (enqueue_links links (emit (EvRow url text) st1)))))).
Proof.
  unfold scrape_iteration. fold (skip_test cfg w url st).
  destruct (skip_test cfg w url st); [left; split; reflexivity|right].
  split; [reflexivity|].
  destruct (get_page_content w url (add_visited url st)) as [res st1] eqn:G.
  exists res, st1. split; [reflexivity|].
  destruct res as [[h|]|x]; [|right; left; reflexivity|left; reflexivity].
  destruct (is_empty h); [right; left; reflexivity|].
  destruct (extract_links cfg w h) as [links|] eqn:E.
  - right; right; right. eexists _, links, h. repeat split; assumption.
  - right; right; left. eexists. reflexivity.
Qed.

(** ** Induction over the [while] loop *)

Section LoopInduction.
Variables (cfg : Config) (w : World) (max_pages : option nat).
Variables (P Q : St -> Prop).
Hypothesis step_continue : forall st url rest st',
  P st -> queue st = url :: rest ->
  scrape_iteration cfg w url (set_queue rest st) = Continue st' -> P st'.
Hypothesis step_raise : forall st url rest st',
  P st -> queue st = url :: rest ->
  scrape_iteration cfg w url (set_queue rest st) = Propagate st' -> Q st'.

Lemma scrape_loop_ind (fuel : nat) (st : St) :
  P st ->
  match scrape_loop cfg w max_pages fuel st with
  | LoopExit st' | OutOfFuel st' => P st'
  | LoopRaised st' => Q st'
  end.
Proof.
  revert st; induction fuel as [|fuel IH]; intros st H; simpl; [exact H|].
  destruct (queue st) as [|url rest] eqn:Hq; [exact H|].
  destruct (budget_left max_pages st); [|exact H].
  destruct (scrape_iteration cfg w url (set_queue rest st)) as [st'|st'] eqn:E.
  - apply IH. exact (step_continue st url rest st' H Hq E).
  - exact (step_raise st url rest st' H Hq E).
Qed.
End LoopInduction.

Lemma scrape_loop_invariant (cfg : Config) (w : World) (max_pages : option nat)
    (P : St -> Prop) :
  (forall st url rest st',
     P st -> queue st = url :: rest ->
     scrape_iteration cfg w url (set_queue rest st) = Continue st'
     \/ scrape_iteration cfg w url (set_queue rest st) = Propagate st' ->
     P st') ->
  forall fuel st, P st -> P (loop_state (scrape_loop cfg w max_pages fuel st)).
Proof.
  intros Hstep fuel st H.
  pose proof (scrape_loop_ind cfg w max_pages P P
                (fun st url rest st' H1 H2 H3 => Hstep st url rest st' H1 H2 (or_introl H3))
                (fun st url rest st' H1 H2 H3 => Hstep st url rest st' H1 H2 (or_intror H3))
                fuel st H) as R.
  destruct (scrape_loop cfg w max_pages fuel st); exact R.
Qed.

(** ** Event-log projections *)

(** The URLs given to [requests.get], in order. *)
Fixpoint requested_urls (l : list event) : list string :=
  match l with
  | [] => []
  | EvRequest u :: l' => u :: requested_urls l'
  | _ :: l' => requested_urls l'
  end.

Lemma requested_urls_app (l1 l2 : list event) :
  requested_urls (app l1 l2) = app (requested_urls l1) (requested_urls l2).
Proof.
  induction l1 as [|e l1 IH]; simpl; [reflexivity|].
  destruct e; rewrite ?IH; reflexivity.
Qed.

Lemma requested_urls_selenium (extra : list event) :
  forallb selenium_event extra = true -> requested_urls extra = [].
Proof.
  induction extra as [|e extra IH]; simpl; [reflexivity|].
  destruct e; simpl; try discriminate; exact IH.
Qed.

Lemma str_mem_In (x : string) (l : list string) :
  str_mem x l = true <-> In x l.
Proof.
  unfold str_mem. rewrite existsb_exists. split.
  - intros (y & Hy & E). apply String.eqb_eq in E. subst. exact Hy.
  - intros H. exists x. split; [exact H | apply String.eqb_refl].
Qed.

Lemma selenium_no_quit (extra : list event) :
  forallb selenium_event extra = true -> ~ In EvQuit extra.
Proof.
  induction extra as [|e extra IH]; simpl; [tauto|].
  intros H [E|E]; [subst; discriminate|].
  apply andb_true_iff in H as [_ H]. exact (IH H E).
Qed.

(** The effect of one loop body that passes the visited and robots
    tests: exactly one request, for [url], which has just been added to
    [visited]; no [quit]; [driver] set only by a Chrome start; new queue
    entries come from [extract_links]; [page_count] grows by one unless an
    exception propagates. *)
Lemma scrape_iteration_effect (cfg : Config) (w : World) (url : string)
    (st st' : St) (r : iter_result) :
  skip_test cfg w url st = false ->
  scrape_iteration cfg w url st = r ->
  (r = Continue st' \/ r = Propagate st') ->
  exists mid,
    log st' = app (log st) mid
    /\ requested_urls mid = [url]
    /\ ~ In EvQuit mid
    /\ (driver st' = true <-> driver st = true \/ In (EvChromeStart true) mid)
    /\ visited st' = app (visited st) [url]
    /\ (forall u, In u (queue st') -> In u (queue st)
          \/ exists h links, extract_links cfg w h = Some links /\ In u links)
    /\ page_count st' = (match r with Continue _ => S | Propagate _ => id end)
                           (page_count st).
Proof.
  intros Hskip Hr Hst'.
  assert (Hv : visited (add_visited url st) = app (visited st) [url]).
  { unfold skip_test in Hskip. apply orb_false_iff in Hskip as [Hm _].
    unfold add_visited; simpl. rewrite Hm. reflexivity. }
  destruct (scrape_iteration_shape cfg w url st) as [[Hs _] | [_ (res & st1 & G & Hcases)]];
    [congruence|].
  apply get_page_content_frame in G.
  destruct G as (Gq & Gv & Gp & extra & Gl & Gsel & Gd).
  assert (Gq' : queue st1 = queue st) by exact Gq.
  assert (Gv' : visited st1 = app (visited st) [url]) by (rewrite Gv; exact Hv).
  assert (Gp' : page_count st1 = page_count st) by exact Gp.
  assert (Gl' : log st1 = app (app (log st) [EvRequest url]) extra) by exact Gl.
  assert (Gd' : driver st1 = true <-> driver st = true
                \/ In (EvChromeStart true) extra) by exact Gd.
  clear Gq Gv Gp Gl Gd Hv.
  rename Gq' into Gq, Gv' into Gv, Gp' into Gp, Gl' into Gl, Gd' into Gd.
  assert (Hreq : requested_urls (app [EvRequest url] extra) = [url]).
  { simpl. rewrite (requested_urls_selenium extra Gsel). reflexivity. }
  assert (Hnq : ~ In EvQuit (app [EvRequest url] extra)).
  { simpl. intros [E|E]; [discriminate | exact (selenium_no_quit extra Gsel E)]. }
  assert (Hlog : log st1 = app (log st) (app [EvRequest url] extra)).
  { rewrite Gl, <- app_assoc. reflexivity. }
  assert (Hdr : driver st1 = true <-> driver st = true
                \/ In (EvChromeStart true) (app [EvRequest url] extra)).
  { rewrite Gd. simpl. intuition congruence. }
  destruct Hcases as [E | [E | [(text & E) | (text & links & html & Hres & Hl & E)]]];
    rewrite E in Hr; subst r; destruct Hst' as [Hst'|Hst']; try discriminate;
    injection Hst' as <-.
  - exists (app [EvRequest url] extra). rewrite Gv, Gp, Gq.
    repeat split; auto; tauto.
  - exists (app [EvRequest url] extra).
    cbn [incr_page_count visited queue log driver page_count].
    rewrite Gv, Gp, Gq. repeat split; auto; tauto.
  - exists (app (app [EvRequest url] extra) [EvRow url text]).
    cbn [emit visited queue log driver page_count].
    rewrite Gv, Gp, Gq, Hlog.
    refine (conj _ (conj _ (conj _ (conj _ (conj _ (conj _ _)))))).
    + rewrite <- !app_assoc. reflexivity.
    + rewrite requested_urls_app, Hreq. reflexivity.
    + intros Hi. apply in_app_or in Hi as [Hi|[Hi|[]]]; [tauto|discriminate].
    + rewrite Hdr. split; intros [Hd|Hd]; auto; right.
      * apply in_or_app. left. exact Hd.
      * apply in_app_or in Hd as [Hd|[Hd|[]]]; [exact Hd|discriminate].
    + reflexivity.
    + intros u Hu. left. exact Hu.
    + reflexivity.
  - destruct (enqueue_links_frame links (emit (EvRow url text) st1))
      as (V & D & P & L & Q).
    exists (app (app [EvRequest url] extra) [EvRow url text]).
    cbn [incr_page_count visited queue log driver page_count].
    rewrite V, D, P, L.
    cbn [emit visited queue log driver page_count].
    rewrite Gv, Gp, Hlog.
    refine (conj _ (conj _ (conj _ (conj _ (conj _ (conj _ _)))))).
    + rewrite <- !app_assoc. reflexivity.
    + rewrite requested_urls_app, Hreq. reflexivity.
    + intros Hi. apply in_app_or in Hi as [Hi|[Hi|[]]]; [tauto|discriminate].
    + rewrite Hdr. split; intros [Hd|Hd]; auto; right.
      * apply in_or_app. left. exact Hd.
      * apply in_app_or in Hd as [Hd|[Hd|[]]]; [exact Hd|discriminate].
    + reflexivity.
    + intros u Hu. apply Q in Hu as [Hu|Hu].
      * left. rewrite <- Gq. exact Hu.
      * right. exists html, links. split; assumption.
    + reflexivity.
Qed.

Lemma NoDup_snoc {A : Type} (l : list A) (x : A) :
  NoDup l -> ~ In x l -> NoDup (app l [x]).
Proof.
  induction l as [|y l IH]; simpl; intros H Hx.
  - constructor; [tauto | constructor].
  - inversion H as [|? ? Hy Hl]; subst. constructor.
    + intros Hi. apply in_app_or in Hi as [Hi|[Hi|[]]]; [tauto|].
      subst. tauto.
    + apply IH; tauto.
Qed.

(** ** Claim C4 *)

(** C4: at every point of a crawl run (every test of the [while] loop and
    the state an exception leaves), the URLs handed to [requests.get] are
    exactly [visited_urls], in order, and contain no duplicate: no URL is
    fetched twice, however many pages link to it.  A URL reaches the fetch
    only when it is absent from [visited_urls], and it is added there
    first. *)
Theorem scrape_fetches_each_url_once (cfg : Config) (w : World)
    (max_pages : option nat) (fuel : nat) :
  let st := loop_state (scrape_loop cfg w max_pages fuel (init_state cfg)) in
  requested_urls (log st) = visited st /\ NoDup (requested_urls (log st)).
Proof.
  enough (H : requested_urls (log (loop_state (scrape_loop cfg w max_pages fuel
                 (init_state cfg)))) =
              visited (loop_state (scrape_loop cfg w max_pages fuel (init_state cfg)))
              /\ NoDup (visited (loop_state (scrape_loop cfg w max_pages fuel
                 (init_state cfg))))).
  { simpl. destruct H as [H1 H2]. rewrite H1. split; [reflexivity | exact H2]. }
  apply (scrape_loop_invariant cfg w max_pages
           (fun st => requested_urls (log st) = visited st /\ NoDup (visited st))).
  - intros st url rest st' [Hr Hn] Hq Hit.
    destruct (skip_test cfg w url (set_queue rest st)) eqn:Hs.
    + destruct (scrape_iteration_shape cfg w url (set_queue rest st))
        as [[_ E] | [Hs' _]]; [|congruence].
      rewrite E in Hit. destruct Hit as [Hit|Hit]; [|discriminate].
      injection Hit as <-. split; assumption.
    + destruct (scrape_iteration_effect cfg w url (set_queue rest st) st' _
                  Hs eq_refl Hit) as (mid & Hl & Hm & _ & _ & Hv & _).
      rewrite Hl, Hv, requested_urls_app, Hm.
      change (log (set_queue rest st)) with (log st).
      change (visited (set_queue rest st)) with (visited st).
      rewrite Hr. split; [reflexivity|].
      apply NoDup_snoc; [exact Hn|].
      unfold skip_test in Hs. apply orb_false_iff in Hs as [Hs _].
      intros Hi. apply str_mem_In in Hi. change (visited (set_queue rest st))
        with (visited st) in Hs. congruence.
  - split; [reflexivity | constructor].
Qed.

(** ** Claim C5 *)

(** The host part [urlparse(u).netloc] that [is_same_domain] compares. *)
Definition netloc_of (u : string) : option string :=
  option_map pr_netloc (urlparse u EmptyString).

Lemma is_same_domain_true (cfg : Config) (u : string) :
  is_same_domain cfg u = Some true ->
  netloc_of u = netloc_of (base_url cfg) /\ netloc_of u <> None.
Proof.
  unfold is_same_domain, netloc_of.
  destruct (urlparse (base_url cfg) EmptyString) as [b|]; [|discriminate].
  destruct (urlparse u EmptyString) as [x|]; [|discriminate].
  intros H. injection H as H. apply String.eqb_eq in H. simpl.
  rewrite H. split; [reflexivity | discriminate].
Qed.

Lemma extract_links_loop_same_domain (cfg : Config) (hrefs links : list string)
    (l : string) :
  extract_links_loop cfg hrefs = Some links -> In l links ->
  is_same_domain cfg l = Some true.
Proof.
  revert links; induction hrefs as [|href hrefs IH]; intros links H Hl; simpl in H.
  - injection H as <-. destruct Hl.
  - destruct (prefix "#" href || prefix "javascript:" href
              || prefix "mailto:" href || prefix "tel:" href);
      [exact (IH links H Hl)|].
    destruct (normalize_url cfg href) as [full|]; [|discriminate].
    destruct (is_same_domain cfg full) as [same|] eqn:Hsd; [|discriminate].
    destruct (extract_links_loop cfg hrefs) as [tl|]; [|discriminate].
    injection H as <-. destruct same.
    + destruct Hl as [<-|Hl]; [exact Hsd | exact (IH tl eq_refl Hl)].
    + exact (IH tl eq_refl Hl).
Qed.

(** C5: every link returned by [extract_links] has the same host
    ([urlparse(...).netloc]) as the base URL, and at every point of a
    crawl run every URL in the queue (the seed and every enqueued link)
    has the base URL's host: cross-host links are never enqueued. *)
Theorem extract_links_same_host_only :
  (forall (cfg : Config) (w : World) (html : string) (links : list string) (l : string),
     extract_links cfg w html = Some links -> In l links ->
     netloc_of l = netloc_of (base_url cfg) /\ netloc_of l <> None)
  /\ (forall (cfg : Config) (w : World) (max_pages : option nat) (fuel : nat) (u : string),
     In u (queue (loop_state (scrape_loop cfg w max_pages fuel (init_state cfg)))) ->
     netloc_of u = netloc_of (base_url cfg)).
Proof.
  assert (Hx : forall (cfg : Config) (w : World) (html : string)
                 (links : list string) (l : string),
            extract_links cfg w html = Some links -> In l links ->
            netloc_of l = netloc_of (base_url cfg) /\ netloc_of l <> None).
  { intros cfg w html links l H Hl. unfold extract_links in H.
    destruct (is_empty html).
    - injection H as <-. destruct Hl.
    - apply is_same_domain_true.
      exact (extract_links_loop_same_domain cfg _ links l H Hl). }
  split; [exact Hx|].
  intros cfg w max_pages fuel.
  apply (scrape_loop_invariant cfg w max_pages
           (fun st => forall u, In u (queue st) -> netloc_of u = netloc_of (base_url cfg))).
  - intros st url rest st' Hinv Hq Hit u Hu.
    destruct (skip_test cfg w url (set_queue rest st)) eqn:Hs.
    + destruct (scrape_iteration_shape cfg w url (set_queue rest st))
        as [[_ E] | [Hs' _]]; [|congruence].
      rewrite E in Hit. destruct Hit as [Hit|Hit]; [|discriminate].
      injection Hit as <-. apply Hinv. simpl in Hu. rewrite Hq. right. exact Hu.
    + destruct (scrape_iteration_effect cfg w url (set_queue rest st) st' _
                  Hs eq_refl Hit) as (_ & _ & _ & _ & _ & _ & Hqu & _).
      destruct (Hqu u Hu) as [H1 | (h & links & Hl & Hin)].
      * apply Hinv. rewrite Hq. right. exact H1.
      * exact (proj1 (Hx cfg w h links u Hl Hin)).
  - intros u [<-|[]]. reflexivity.
Qed.

(** ** Claim C7 *)

Lemma scrape_loop_driver_no_quit (cfg : Config) (w : World)
    (max_pages : option nat) (fuel : nat) :
  let st := loop_state (scrape_loop cfg w max_pages fuel (init_state cfg)) in
  ~ In EvQuit (log st)
  /\ (driver st = true <-> In (EvChromeStart true) (log st)).
Proof.
  apply (scrape_loop_invariant cfg w max_pages
           (fun st => ~ In EvQuit (log st)
                      /\ (driver st = true <-> In (EvChromeStart true) (log st)))).
  - intros st url rest st' [Hq0 Hd0] Hq Hit.
    destruct (skip_test cfg w url (set_queue rest st)) eqn:Hs.
    + destruct (scrape_iteration_shape cfg w url (set_queue rest st))
        as [[_ E] | [Hs' _]]; [|congruence].
      rewrite E in Hit. destruct Hit as [Hit|Hit]; [|discriminate].
      injection Hit as <-. split; assumption.
    + destruct (scrape_iteration_effect cfg w url (set_queue rest st) st' _
                  Hs eq_refl Hit) as (mid & Hl & _ & Hnq & Hd & _).
      rewrite Hl. change (log (set_queue rest st)) with (log st).
      change (driver (set_queue rest st)) with (driver st) in Hd.
      split.
      * intros Hi. apply in_app_or in Hi as [Hi|Hi]; tauto.
      * rewrite Hd, Hd0. split.
        -- intros [Hi|Hi]; apply in_or_app; tauto.
        -- intros Hi. apply in_app_or in Hi. exact Hi.
  - simpl. split; [tauto|]. split; [discriminate | tauto].
Qed.

(** C7: whenever [scrape] ends (the queue is empty, the page budget is
    reached, or an exception propagates out of the loop), if a Chrome
    driver was started during the run then [driver.quit()] is called
    exactly once, as the last event of the run; if none was started,
    nothing is quit.  ([None] is a run that has not ended yet.) *)
Theorem scrape_releases_driver_once (cfg : Config) (w : World)
    (max_pages : option nat) (fuel : nat) :
  match scrape cfg w max_pages fuel (init_state cfg) with
  | Some (_, st) =>
      (In (EvChromeStart true) (log st) ->
       exists before, log st = app before [EvQuit] /\ ~ In EvQuit before)
      /\ (~ In (EvChromeStart true) (log st) -> ~ In EvQuit (log st))
  | None => True
  end.
Proof.
  pose proof (scrape_loop_driver_no_quit cfg w max_pages fuel) as H.
  unfold scrape.
  destruct (scrape_loop cfg w max_pages fuel (init_state cfg)) as [st|st|st];
    simpl in H; destruct H as [Hnq Hd]; try exact I;
    unfold scrape_finally; destruct (driver st) eqn:E; simpl.
  all: split; intros Hc.
  all: try (exists (log st); split; [reflexivity | exact Hnq]).
  all: try exact Hnq.
  all: try (exfalso; apply Hc; apply in_or_app; left; apply Hd; reflexivity).
  all: apply Hd in Hc; discriminate.
Qed.

(** ** Claim C10 *)

(** C10: [page_count], the counter compared with [max_pages], is at every
    test of the loop the number of [requests.get] calls made so far, one
    per dequeued URL that passed the visited and robots tests, whether
    the fetch returned content or [None]; URLs skipped by those tests make
    no request and cost nothing.  When an exception leaves the loop, the
    last fetch was not counted. *)
Theorem page_count_counts_fetch_attempts (cfg : Config) (w : World)
    (max_pages : option nat) (fuel : nat) :
  match scrape_loop cfg w max_pages fuel (init_state cfg) with
  | LoopExit st | OutOfFuel st =>
      page_count st = length (requested_urls (log st))
  | LoopRaised st =>
      S (page_count st) = length (requested_urls (log st))
  end.
Proof.
  apply (scrape_loop_ind cfg w max_pages
           (fun st => page_count st = length (requested_urls (log st)))
           (fun st => S (page_count st) = length (requested_urls (log st)))).
  - intros st url rest st' Hp Hq Hit.
    destruct (skip_test cfg w url (set_queue rest st)) eqn:Hs.
    + destruct (scrape_iteration_shape cfg w url (set_queue rest st))
        as [[_ E] | [Hs' _]]; [|congruence].
      rewrite E in Hit. injection Hit as <-. exact Hp.
    + destruct (scrape_iteration_effect cfg w url (set_queue rest st) st' _
                  Hs Hit (or_introl eq_refl)) as (mid & Hl & Hm & _ & _ & _ & _ & Hc).
      rewrite Hc, Hl, requested_urls_app, Hm, length_app. simpl.
      change (page_count (set_queue rest st)) with (page_count st).
      change (log (set_queue rest st)) with (log st). lia.
  - intros st url rest st' Hp Hq Hit.
    destruct (skip_test cfg w url (set_queue rest st)) eqn:Hs.
    + destruct (scrape_iteration_shape cfg w url (set_queue rest st))
        as [[_ E] | [Hs' _]]; [|congruence].
      rewrite E in Hit. discriminate.
    + destruct (scrape_iteration_effect cfg w url (set_queue rest st) st' _
                  Hs Hit (or_intror eq_refl)) as (mid & Hl & Hm & _ & _ & _ & _ & Hc).
      rewrite Hc, Hl, requested_urls_app, Hm, length_app. simpl.
      change (page_count (set_queue rest st)) with (page_count st).
      change (log (set_queue rest st)) with (log st). unfold id. lia.
  - reflexivity.
Qed.

(** ** Claim C3 *)

(** The same world with a robots parser that allows every URL. *)
Definition allow_all_robots (w : World) : World :=
  mkWorld (fun _ => true) (detect_javascript_content w) (anchor_hrefs w)
          (soup_text w) (selenium_importable w) (net w).

Lemma scrape_iteration_robots_unread (base : string) (respect : bool)
    (w : World) (url : string) (st : St) :
  scrape_iteration (make_scraper base respect true) w url st
  = scrape_iteration (make_scraper base respect true) (allow_all_robots w) url st.
Proof. reflexivity. Qed.

(** C3: when [self.robot_parser.read()] raised in [__init__], the robots
    part of the politeness test is false for every URL, so no URL is ever
    skipped on robots grounds: the whole crawl runs exactly as with a
    robots policy that allows everything. *)
Theorem robots_fail_open (base : string) (respect : bool) (w : World)
    (max_pages : option nat) (fuel : nat) (st : St) :
  let cfg := make_scraper base respect true in
  (forall url,
     robot_parser_completed cfg && negb (can_fetch cfg w url) = false)
  /\ scrape_loop cfg w max_pages fuel st
     = scrape_loop cfg (allow_all_robots w) max_pages fuel st.
Proof.
  simpl. split; [reflexivity|].
  revert st; induction fuel as [|fuel IH]; intros st; simpl; [reflexivity|].
  destruct (queue st) as [|url rest]; [reflexivity|].
  destruct (budget_left max_pages st); [|reflexivity].
  rewrite <- scrape_iteration_robots_unread.
  destruct (scrape_iteration (make_scraper base respect true) w url
              (set_queue rest st)); [apply IH | reflexivity].
Qed.

(** ** Claim C8 *)

(** [normalize_url(normalize_url(u))], with a [ValueError] of the inner
    call propagated. *)
Definition normalize_twice (cfg : Config) (u : string) : option string :=
  match normalize_url cfg u with
  | Some v => normalize_url cfg v
  | None => None
  end.

Lemma urlunparse_scheme (s n p pa q f : string) :
  is_empty s = false -> exists t, urlunparse s n p pa q f = s ++ ":" ++ t.
Proof.
  intros Hs. unfold urlunparse, urlunsplit. rewrite Hs. cbv zeta.
  destruct (negb (is_empty pa)), (negb (is_empty n) || _), (negb (is_empty q)),
    (negb (is_empty f)); simpl negb; cbv iota;
    eexists; rewrite ?str_append_assoc; reflexivity.
Qed.

(** What [urljoin] can return: the reference itself, the base, or a
    [urlunparse] whose scheme is the base's. *)
Lemma urljoin_shape (base u r : string) :
  urljoin base u = Some r ->
  r = u \/ r = base
  \/ exists bp n p pa q f, urlparse base EmptyString = Some bp
                           /\ r = urlunparse (pr_scheme bp) n p pa q f.
Proof.
  unfold urljoin. intros H.
  destruct (is_empty base); [injection H as <-; left; reflexivity|].
  destruct (is_empty u); [injection H as <-; right; left; reflexivity|].
  destruct (urlparse base EmptyString) as [[bs bn bp bpa bq bf]|] eqn:Hb;
    [|discriminate].
  destruct (urlparse u bs) as [[s n p pa q f]|]; [|discriminate].
  destruct (negb (String.eqb s bs) || negb (str_mem s uses_relative)) eqn:C;
    [injection H as <-; left; reflexivity|].
  apply orb_false_iff in C as [C _]. apply negb_false_iff, String.eqb_eq in C.
  subst s. right; right.
  destruct (str_mem bs uses_netloc && negb (is_empty n));
    [injection H as <-; do 6 eexists; split; reflexivity|].
  destruct (is_empty p && is_empty pa);
    injection H as <-; do 6 eexists; split; reflexivity.
Qed.

(** Case on the innermost [match] of [H], repeatedly. *)
Ltac destruct_in H :=
  repeat match type of H with
         | context [match ?x with _ => _ end] =>
             lazymatch x with
             | context [match _ with _ => _ end] => fail
             | _ => destruct x
             end
         end.

Lemma urlparse_http_scheme (rest : string) (bp : ParseResult) :
  urlparse ("http://" ++ rest) EmptyString = Some bp -> pr_scheme bp = "http".
Proof.
  unfold urlparse, urlsplit. simpl. intros H.
  destruct_in H; try discriminate; injection H as <-; reflexivity.
Qed.

Lemma urlparse_https_scheme (rest : string) (bp : ParseResult) :
  urlparse ("https://" ++ rest) EmptyString = Some bp -> pr_scheme bp = "https".
Proof.
  unfold urlparse, urlsplit. simpl. intros H.
  destruct_in H; try discriminate; injection H as <-; reflexivity.
Qed.

Lemma prefix_http_scheme_result (s t : string) :
  s = "http" \/ s = "https" -> prefix "http" (s ++ ":" ++ t) = true.
Proof. intros [-> | ->]; reflexivity. Qed.

(** C8, as stated for every base URL, fails: with the base URL
    ["HTTP://example.com"] (upper-case scheme), [normalize_url("")] is the
    base itself, which does not start with ["http"], and normalising it
    again gives ["http://example.com"]. *)
Lemma normalize_url_not_idempotent_upper_case_base :
  let cfg := make_scraper "HTTP://example.com" true false in
  normalize_url cfg "" = Some "HTTP://example.com"
  /\ normalize_twice cfg "" = Some "http://example.com"
  /\ normalize_twice cfg "" <> normalize_url cfg "".
Proof.
  split; [reflexivity|]. split; [reflexivity|].
  vm_compute. intros H. discriminate H.
Qed.

(** C8 (amended): for a base URL that starts with ["http://"] or
    ["https://"], [normalize_url] is idempotent on every string [u]
    (an exception raised by the first call is raised again). *)
Theorem normalize_url_idempotent (base : string) (respect rr : bool) (u : string) :
  prefix "http://" base = true \/ prefix "https://" base = true ->
  normalize_twice (make_scraper base respect rr) u
  = normalize_url (make_scraper base respect rr) u.
Proof.
  intros Hbase. unfold normalize_twice.
  destruct (normalize_url (make_scraper base respect rr) u) as [r|] eqn:N;
    [|reflexivity].
  unfold normalize_url in N |- *. simpl base_url in N |- *.
  destruct (prefix "http" u) eqn:Hu.
  - injection N as <-. rewrite Hu. reflexivity.
  - destruct (urljoin_shape base u r N) as [-> | [-> | (bp & n & p & pa & q & f & Hb & ->)]].
    + rewrite Hu. exact N.
    + assert (Hp : prefix "http" base = true).
      { destruct Hbase as [H|H]; apply prefix_app_inv in H as [x ->];
          reflexivity. }
      rewrite Hp. reflexivity.
    + assert (Hs : pr_scheme bp = "http" \/ pr_scheme bp = "https").
      { destruct Hbase as [H|H]; apply prefix_app_inv in H as [x ->].
        - left. exact (urlparse_http_scheme x bp Hb).
        - right. exact (urlparse_https_scheme x bp Hb). }
      destruct (urlunparse_scheme (pr_scheme bp) n p pa q f) as [t Ht];
        [destruct Hs as [-> | ->]; reflexivity|].
      rewrite Ht, (prefix_http_scheme_result _ t Hs). reflexivity.
Qed.

Lemma normalize_url_idempotent_witness :
  (prefix "http://" "https://ex.com/a/" = true
   \/ prefix "https://" "https://ex.com/a/" = true)
  /\ normalize_twice (make_scraper "https://ex.com/a/" true false) "../b"
     = normalize_url (make_scraper "https://ex.com/a/" true false) "../b".
Proof.
  split; [right; reflexivity|].
  apply (normalize_url_idempotent "https://ex.com/a/" true false "../b").
  right. reflexivity.
Defined.

(** ** Claim C2 *)

Lemma extract_links_loop_origin (cfg : Config) (hrefs links : list string)
    (l : string) :
  extract_links_loop cfg hrefs = Some links -> In l links ->
  exists href, In href hrefs /\ normalize_url cfg href = Some l.
Proof.
  revert links; induction hrefs as [|href hrefs IH]; intros links H Hl; simpl in H.
  - injection H as <-. destruct Hl.
  - destruct (prefix "#" href || prefix "javascript:" href
              || prefix "mailto:" href || prefix "tel:" href).
    { destruct (IH links H Hl) as (h & Hh & E). exists h. split; [right|]; assumption. }
    destruct (normalize_url cfg href) as [full|] eqn:Hn; [|discriminate].
    destruct (is_same_domain cfg full) as [same|]; [|discriminate].
    destruct (extract_links_loop cfg hrefs) as [tl|]; [|discriminate].
    injection H as <-.
    assert (Htl : In l tl -> exists h, In h (href :: hrefs) /\ normalize_url cfg h = Some l).
    { intros Hi. destruct (IH tl eq_refl Hi) as (h & Hh & E).
      exists h. split; [right|]; assumption. }
    destruct same; [destruct Hl as [<-|Hl]|]; auto.
    exists href. split; [left; reflexivity | exact Hn].
Qed.

Definition page_markup : string := "<p><a href='d'>next</a></p>".

(** A site whose page [http://ex.com/b/c.html] holds the relative link
    [d], crawled from the base URL [http://ex.com/a/]. *)
Definition world_relative_link : World :=
  mkWorld (fun _ => true) (fun _ => false)
          (fun h => if String.eqb h page_markup then ["d"] else [])
          (fun _ => "next") true
          (fun _ => mkEnv (HttpResponse 200 page_markup) false NavError).

(** C2, as stated, fails: the link [d] found in the page
    [http://ex.com/b/c.html] is extracted as [http://ex.com/a/d], resolved
    against the crawl's base URL, whereas resolving it against the page's
    own URL gives [http://ex.com/b/d]. *)
Lemma extract_links_not_relative_to_page :
  ~ (forall (cfg : Config) (w : World) (page html : string)
            (links : list string) (l : string),
       extract_links cfg w html = Some links -> In l links ->
       exists href, In href (anchor_hrefs w html) /\ urljoin page href = Some l).
Proof.
  intros H.
  destruct (H (make_scraper "http://ex.com/a/" true false) world_relative_link
              "http://ex.com/b/c.html" page_markup ["http://ex.com/a/d"]
              "http://ex.com/a/d" eq_refl (or_introl eq_refl))
    as (href & Hin & Hj).
  simpl in Hin. destruct Hin as [<-|[]].
  vm_compute in Hj. discriminate Hj.
Qed.

(** C2 (amended): every link that [extract_links] returns for a page is
    [normalize_url] of one of the page's [href]s, i.e. a relative
    reference is resolved against the crawl's base URL; the fetched
    page's own URL is not an input of [extract_links]. *)
Theorem extract_links_resolved_against_base (cfg : Config) (w : World)
    (html : string) (links : list string) (l : string) :
  extract_links cfg w html = Some links -> In l links ->
  exists href, In href (anchor_hrefs w html)
               /\ normalize_url cfg href = Some l.
Proof.
  unfold extract_links. destruct (is_empty html).
  - intros H. injection H as <-. intros [].
  - apply extract_links_loop_origin.
Qed.

Lemma extract_links_resolved_against_base_witness :
  extract_links (make_scraper "http://ex.com/a/" true false) world_relative_link
    page_markup = Some ["http://ex.com/a/d"]
  /\ In "http://ex.com/a/d" ["http://ex.com/a/d"]
  /\ exists href, In href (anchor_hrefs world_relative_link page_markup)
                  /\ normalize_url (make_scraper "http://ex.com/a/" true false) href
                     = Some "http://ex.com/a/d".
Proof.
  split; [reflexivity|]. split; [left; reflexivity|].
  apply (extract_links_resolved_against_base
           (make_scraper "http://ex.com/a/" true false) world_relative_link
           page_markup ["http://ex.com/a/d"] "http://ex.com/a/d");
    [reflexivity | left; reflexivity].
Defined.

(** ** Claim C1 *)

Definition seed_markup : string := "<a href='/b'>b</a><a href='/c'>c</a>".

(** A site whose seed page links to [/b] and [/c], two URLs whose
    [requests.get] raises, on a machine where Chrome fails to start. *)
Definition world_chrome_fails : World :=
  mkWorld (fun _ => true) (fun _ => false)
          (fun h => if String.eqb h seed_markup then ["/b"; "/c"] else [])
          (fun _ => "b c") true
          (fun u => if String.eqb u "http://ex.com/"
                    then mkEnv (HttpResponse 200 seed_markup) false NavError
                    else mkEnv HttpError false NavError).

(** C1 (code bug): [tried_selenium] is set only after a successful
    [initialize_selenium()], so a failed Chrome start is retried: in this
    run [webdriver.Chrome] is called, and fails, once for [/b] and again
    for [/c]. *)
Theorem selenium_init_retried_after_failure :
  scrape (make_scraper "http://ex.com/" true false) world_chrome_fails None 10
    (init_state (make_scraper "http://ex.com/" true false))
  = Some (Returned,
          mkSt [] ["http://ex.com/"; "http://ex.com/b"; "http://ex.com/c"]
               false false 3
               [EvRequest "http://ex.com/"; EvRow "http://ex.com/" "b c";
                EvRequest "http://ex.com/b"; EvChromeStart false;
                EvRequest "http://ex.com/c"; EvChromeStart false]).
Proof. reflexivity. Qed.

(** The part of the one-shot policy that the code does keep: Chrome is
    started successfully at most once per run, since [initialize_selenium]
    returns at once when [self.driver] is set. *)
Fixpoint chrome_started (l : list event) : nat :=
  match l with
  | [] => 0
  | EvChromeStart true :: l' => S (chrome_started l')
  | _ :: l' => chrome_started l'
  end.

Lemma chrome_started_app (l1 l2 : list event) :
  chrome_started (app l1 l2) = chrome_started l1 + chrome_started l2.
Proof.
  induction l1 as [|e l1 IH]; simpl; [reflexivity|].
  destruct e as [| [|] | | |]; simpl; rewrite ?IH; reflexivity.
Qed.

Definition one_driver (st : St) : Prop :=
  chrome_started (log st) = if driver st then 1 else 0.

Lemma get_page_content_one_driver (w : World) (url : string) (st : St)
    (r : result (option string)) (st1 : St) :
  one_driver st -> get_page_content w url st = (r, st1) -> one_driver st1.
Proof.
  destruct st as [q v d t pc l]. unfold one_driver. simpl. intros H.
  unfold get_page_content, request_error_fallback, initialize_selenium.
  destruct (net w url) as [g ok nav]; simpl.
  destruct g as [code html|];
    [destruct (Nat.eqb code 200), (detect_javascript_content w html)|];
    destruct d, t, (selenium_importable w), ok, nav;
    simpl; intros E; injection E as <- <-; simpl;
    rewrite ?chrome_started_app, H; reflexivity.
Qed.

Lemma scrape_loop_chrome_started_at_most_once (cfg : Config) (w : World)
    (max_pages : option nat) (fuel : nat) :
  chrome_started (log (loop_state (scrape_loop cfg w max_pages fuel
                                     (init_state cfg)))) <= 1.
Proof.
  enough (H : one_driver (loop_state (scrape_loop cfg w max_pages fuel
                                        (init_state cfg)))).
  { unfold one_driver in H. rewrite H. destruct (driver _); auto. }
  apply (scrape_loop_invariant cfg w max_pages one_driver);
    [|reflexivity].
  intros st url rest st' Hinv Hq Hit.
  destruct (scrape_iteration_shape cfg w url (set_queue rest st))
    as [[_ E] | [_ (res & st1 & G & Hc)]].
  - rewrite E in Hit. destruct Hit as [Hit|Hit]; [|discriminate].
    injection Hit as <-. exact Hinv.
  - apply get_page_content_one_driver in G; [|exact Hinv].
    unfold one_driver in G.
    destruct Hc as [E | [E | [(text & E) | (text & links & html & _ & _ & E)]]];
      rewrite E in Hit; destruct Hit as [Hit|Hit]; try discriminate;
      injection Hit as <-; unfold one_driver.
    + exact G.
    + exact G.
    + simpl. rewrite chrome_started_app, G. simpl. lia.
    + destruct (enqueue_links_frame links (emit (EvRow url text) st1))
        as (_ & D & _ & L & _).
      cbn [incr_page_count log driver]. rewrite L, D. simpl.
      rewrite chrome_started_app, G. simpl. lia.
Qed.

(** A failed fetch costs budget: with [max_pages = 2], the failed fetch of
    [/b] uses the second page and [/c] is never visited. *)
Example failed_fetch_uses_budget :
  scrape_loop (make_scraper "http://ex.com/" true false) world_chrome_fails
    (Some 2) 10 (init_state (make_scraper "http://ex.com/" true false))
  = LoopExit
      (mkSt ["http://ex.com/c"] ["http://ex.com/"; "http://ex.com/b"]
            false false 2
            [EvRequest "http://ex.com/"; EvRow "http://ex.com/" "b c";
             EvRequest "http://ex.com/b"; EvChromeStart false]).
Proof. reflexivity. Qed.

(** * Further properties of the code *)

(** ** [detect_javascript_content] *)





Lemma lower_app (a b : string) : lower (a ++ b) = lower a ++ lower b.
Proof. induction a as [|c a IH]; simpl; [reflexivity | rewrite IH; reflexivity]. Qed.











(** ** [get_page_content] and [initialize_selenium] *)







(** Without the [selenium] package, the first fetch that wants Selenium
    (a failed request, or a 200 page classified as JavaScript-heavy, while
    Selenium has not been tried) raises [ImportError] out of
    [get_page_content]: in the 200 case the first [ImportError] is caught
    by the outer [except], whose fallback imports again and raises. *)
Theorem get_page_content_missing_selenium_raises (w : World) (url : string) (st : St) :
  selenium_importable w = false -> driver st = false -> tried_selenium st = false ->
  (requests_get (net w url) = HttpError
   \/ exists html, requests_get (net w url) = HttpResponse 200 html
                   /\ detect_javascript_content w html = true) ->
  get_page_content w url st = (Raise ImportError, emit (EvRequest url) st).
Proof.
  destruct st as [q v d t pc l]. simpl. intros Himp -> -> Hg.
  unfold get_page_content, request_error_fallback, initialize_selenium.
  rewrite Himp. simpl.
  destruct Hg as [-> | (html & -> & Hd)]; simpl; [reflexivity|].
  rewrite Hd. reflexivity.
Qed.

Definition world_no_selenium : World :=
  mkWorld (fun _ => true) (fun _ => false) (fun _ => []) (fun _ => "") false
          (fun _ => mkEnv HttpError true (PageSource "")).

Lemma get_page_content_missing_selenium_raises_witness :
  selenium_importable world_no_selenium = false /\ driver st_fresh = false
  /\ tried_selenium st_fresh = false
  /\ requests_get (net world_no_selenium "http://ex.com/") = HttpError
  /\ get_page_content world_no_selenium "http://ex.com/" st_fresh
     = (Raise ImportError, emit (EvRequest "http://ex.com/") st_fresh).
Proof.
  split; [reflexivity|]. split; [reflexivity|]. split; [reflexivity|].
  split; [reflexivity|].
  apply get_page_content_missing_selenium_raises;
    [reflexivity | reflexivity | reflexivity | left; reflexivity].
Defined.

(** ** The frontier: [enqueue_links] and the queue *)

Lemma enqueue_links_added (links : list string) (st : St) :
  exists added,
    queue (enqueue_links links st) = app (queue st) added
    /\ NoDup added
    /\ (forall u, In u added <-> In u links /\ ~ In u (visited st) /\ ~ In u (queue st)).
Proof.
  unfold enqueue_links. revert st.
  induction links as [|a links IH]; intros st; simpl.
  - exists []. rewrite app_nil_r. split; [reflexivity|]. split; [constructor|].
    intros u; split; [intros []| intros [[] _]].
  - destruct (negb (str_mem a (visited st)) && negb (str_mem a (queue st))) eqn:C.
    + apply andb_true_iff in C as [Cv Cq].
      apply negb_true_iff in Cv, Cq.
      assert (Nv : ~ In a (visited st)) by (rewrite <- str_mem_In; congruence).
      assert (Nq : ~ In a (queue st)) by (rewrite <- str_mem_In; congruence).
      destruct (IH (set_queue (app (queue st) [a]) st)) as (added & Hq & Hn & Hi).
      simpl in Hq, Hi.
      exists (a :: added). split; [rewrite Hq, <- app_assoc; reflexivity|].
      split.
      * constructor; [|exact Hn].
        intros Ha. apply Hi in Ha as (_ & _ & Ha). apply Ha, in_or_app. right; left; reflexivity.
      * intros u. split.
        -- intros [<-|Hu]; [tauto|].
           apply Hi in Hu as (Hl & Hv & Hq'). split; [right; exact Hl|].
           split; [exact Hv|]. intros Hu. apply Hq', in_or_app. left; exact Hu.
        -- intros ([<-|Hl] & Hv & Hq').
           ++ left; reflexivity.
           ++ destruct (string_dec a u) as [<-|Ne]; [left; reflexivity|right].
              apply Hi. split; [exact Hl|]. split; [exact Hv|].
              intros Hu. apply in_app_or in Hu as [Hu|[Hu|[]]]; [tauto | congruence].
    + destruct (IH st) as (added & Hq & Hn & Hi).
      exists added. split; [exact Hq|]. split; [exact Hn|].
      intros u. rewrite Hi. split.
      * intros (Hl & Hv & Hq'). split; [right; exact Hl | tauto].
      * intros ([<-|Hl] & Hv & Hq'); [|tauto].
        apply andb_false_iff in C as [C|C]; apply negb_false_iff, str_mem_In in C;
          contradiction.
Qed.


(** The queue and visited set of a body that does not raise, in terms of
    those before it (after the pop). *)
Lemma scrape_iteration_queue (cfg : Config) (w : World) (url : string) (st st' : St) :
  skip_test cfg w url st = false ->
  scrape_iteration cfg w url st = Continue st' \/ scrape_iteration cfg w url st = Propagate st' ->
  visited st' = app (visited st) [url]
  /\ exists added, queue st' = app (queue st) added
     /\ NoDup added
     /\ (forall u, In u added -> ~ In u (visited st') /\ ~ In u (queue st)).
Proof.
  intros Hs Hit.
  assert (Hv : visited (add_visited url st) = app (visited st) [url]).
  { unfold skip_test in Hs. apply orb_false_iff in Hs as [Hm _].
    unfold add_visited; simpl. rewrite Hm. reflexivity. }
  destruct (scrape_iteration_shape cfg w url st) as [[Hs' _] | [_ (res & st1 & G & Hc)]];
    [congruence|].
  apply get_page_content_frame in G. destruct G as (Gq & Gv & _).
  assert (Gq' : queue st1 = queue st) by exact Gq.
  assert (Gv' : visited st1 = app (visited st) [url]) by (rewrite Gv; exact Hv).
  clear Gq Gv.
  assert (Nil : exists added, queue st1 = app (queue st) added /\ NoDup added
                  /\ (forall u, In u added -> ~ In u (visited st1) /\ ~ In u (queue st))).
  { exists []. rewrite app_nil_r. split; [exact Gq'|]. split; [constructor | intros u []]. }
  destruct Hc as [E | [E | [(text & E) | (text & links & html & _ & _ & E)]]];
    rewrite E in Hit; destruct Hit as [Hit|Hit]; try discriminate; injection Hit as <-.
  - split; [exact Gv' | exact Nil].
  - split; [exact Gv' | exact Nil].
  - split; [exact Gv' | exact Nil].
  - destruct (enqueue_links_frame links (emit (EvRow url text) st1)) as (V & _ & _ & _ & _).
    destruct (enqueue_links_added links (emit (EvRow url text) st1)) as (added & Hq & Hn & Hi).
    cbn [incr_page_count visited queue]. rewrite V. cbn [emit visited queue] in Hq, Hi |- *.
    split; [exact Gv'|]. exists added. rewrite Hq, Gq'. split; [reflexivity|].
    split; [exact Hn|]. intros u Hu. apply Hi in Hu as (_ & Hu1 & Hu2).
    rewrite Gq' in Hu2. split; assumption.
Qed.

(** At every point of a crawl run the queue holds no URL twice and no URL
    that has already been visited: a URL is queued at most once before it
    is fetched, and never again after. *)
Theorem scrape_queue_no_duplicates (cfg : Config) (w : World)
    (max_pages : option nat) (fuel : nat) :
  let st := loop_state (scrape_loop cfg w max_pages fuel (init_state cfg)) in
  NoDup (queue st) /\ (forall u, In u (queue st) -> ~ In u (visited st)).
Proof.
  apply (scrape_loop_invariant cfg w max_pages
           (fun st => NoDup (queue st) /\ (forall u, In u (queue st) -> ~ In u (visited st)))).
  - intros st url rest st' [Hn Hd] Hq Hit.
    rewrite Hq in Hn, Hd. inversion Hn as [|? ? Hur Hrest]; subst.
    destruct (skip_test cfg w url (set_queue rest st)) eqn:Hs.
    + destruct (scrape_iteration_shape cfg w url (set_queue rest st))
        as [[_ E] | [Hs' _]]; [|congruence].
      rewrite E in Hit. destruct Hit as [Hit|Hit]; [|discriminate].
      injection Hit as <-. simpl. split; [exact Hrest|].
      intros u Hu. apply Hd. right. exact Hu.
    + destruct (scrape_iteration_queue cfg w url (set_queue rest st) st' Hs Hit)
        as (Hv & added & Hq' & Hna & Hi).
      simpl in Hv, Hq', Hi. rewrite Hq'. split.
      * apply NoDup_app; [exact Hrest | exact Hna|].
        intros u Hu Ha. apply Hi in Ha as [_ Ha]. exact (Ha Hu).
      * intros u Hu. apply in_app_or in Hu as [Hu|Hu]; [|exact (proj1 (Hi u Hu))].
        rewrite Hv. intros Hv'. apply in_app_or in Hv' as [Hv'|[Hv'|[]]].
        -- exact (Hd u (or_intror Hu) Hv').
        -- subst. exact (Hur Hu).
  - split; [constructor; [intros []|constructor] | intros u [<-|[]] []].
Qed.

(** ** The page budget *)





(** ** Selenium over a whole run *)

Fixpoint driver_gets (l : list event) : nat :=
  match l with
  | [] => 0
  | EvDriverGet _ :: l' => S (driver_gets l')
  | _ :: l' => driver_gets l'
  end.

Lemma driver_gets_app (l1 l2 : list event) :
  driver_gets (app l1 l2) = driver_gets l1 + driver_gets l2.
Proof.
  induction l1 as [|e l1 IH]; simpl; [reflexivity|].
  destruct e; simpl; rewrite ?IH; reflexivity.
Qed.

Definition one_navigation (st : St) : Prop :=
  driver_gets (log st) = if tried_selenium st then 1 else 0.

Lemma get_page_content_one_navigation (w : World) (url : string) (st : St)
    (r : result (option string)) (st1 : St) :
  one_navigation st -> get_page_content w url st = (r, st1) -> one_navigation st1.
Proof.
  destruct st as [q v d t pc l]. unfold one_navigation. simpl. intros H.
  unfold get_page_content, request_error_fallback, initialize_selenium.
  destruct (net w url) as [g ok nav]; simpl.
  destruct g as [code html|];
    [destruct (Nat.eqb code 200), (detect_javascript_content w html)|];
    destruct d, t, (selenium_importable w), ok, nav;
    simpl; intros E; injection E as <- <-; simpl;
    rewrite ?driver_gets_app, H; reflexivity.
Qed.

Lemma enqueue_links_tried (links : list string) (st : St) :
  tried_selenium (enqueue_links links st) = tried_selenium st.
Proof.
  unfold enqueue_links. revert st.
  induction links as [|a links IH]; intros st; simpl; [reflexivity|].
  rewrite IH. destruct (_ && _); reflexivity.
Qed.

(** The browser loads at most one URL in a whole crawl: [driver.get] is
    called once at most, and it has been called exactly when
    [tried_selenium] is set; every later page, JavaScript-heavy or not,
    is taken from [requests]. *)
Theorem scrape_navigates_at_most_once (cfg : Config) (w : World)
    (max_pages : option nat) (fuel : nat) :
  let st := loop_state (scrape_loop cfg w max_pages fuel (init_state cfg)) in
  driver_gets (log st) = if tried_selenium st then 1 else 0.
Proof.
  apply (scrape_loop_invariant cfg w max_pages one_navigation); [|reflexivity].
  intros st url rest st' Hinv Hq Hit.
  destruct (scrape_iteration_shape cfg w url (set_queue rest st))
    as [[_ E] | [_ (res & st1 & G & Hc)]].
  - rewrite E in Hit. destruct Hit as [Hit|Hit]; [|discriminate].
    injection Hit as <-. exact Hinv.
  - apply get_page_content_one_navigation in G; [|exact Hinv].
    unfold one_navigation in G.
    destruct Hc as [E | [E | [(text & E) | (text & links & html & _ & _ & E)]]];
      rewrite E in Hit; destruct Hit as [Hit|Hit]; try discriminate;
      injection Hit as <-; unfold one_navigation.
    + exact G.
    + exact G.
    + simpl. rewrite driver_gets_app, G. simpl. lia.
    + destruct (enqueue_links_frame links (emit (EvRow url text) st1))
        as (_ & _ & _ & L & _).
      cbn [incr_page_count log tried_selenium]. rewrite L, enqueue_links_tried. simpl.
      rewrite driver_gets_app, G. simpl. lia.
Qed.

(** Chrome is started successfully at most once in a whole crawl. *)
Theorem scrape_starts_chrome_at_most_once (cfg : Config) (w : World)
    (max_pages : option nat) (fuel : nat) :
  chrome_started (log (loop_state (scrape_loop cfg w max_pages fuel
                                     (init_state cfg)))) <= 1.
Proof. apply scrape_loop_chrome_started_at_most_once. Qed.

(** ** CSV rows *)

(** The URLs of the rows [save_to_csv] appends, in order. *)
Fixpoint row_urls (l : list event) : list string :=
  match l with
  | [] => []
  | EvRow u _ :: l' => u :: row_urls l'
  | _ :: l' => row_urls l'
  end.

Lemma row_urls_app (l1 l2 : list event) :
  row_urls (app l1 l2) = app (row_urls l1) (row_urls l2).
Proof.
  induction l1 as [|e l1 IH]; simpl; [reflexivity|].
  destruct e; rewrite ?IH; reflexivity.
Qed.

Lemma row_urls_selenium (extra : list event) :
  forallb selenium_event extra = true -> row_urls extra = [].
Proof.
  induction extra as [|e extra IH]; simpl; [reflexivity|].
  destruct e; simpl; try discriminate; exact IH.
Qed.

(** The log and visited set of a body that passes the tests: one request
    for [url], Selenium events, and at most one row, for [url]. *)
Lemma scrape_iteration_rows (cfg : Config) (w : World) (url : string) (st st' : St) :
  skip_test cfg w url st = false ->
  scrape_iteration cfg w url st = Continue st' \/ scrape_iteration cfg w url st = Propagate st' ->
  visited st' = app (visited st) [url]
  /\ (row_urls (log st') = row_urls (log st)
      \/ row_urls (log st') = app (row_urls (log st)) [url]).
Proof.
  intros Hs Hit.
  assert (Hv : visited (add_visited url st) = app (visited st) [url]).
  { unfold skip_test in Hs. apply orb_false_iff in Hs as [Hm _].
    unfold add_visited; simpl. rewrite Hm. reflexivity. }
  destruct (scrape_iteration_shape cfg w url st) as [[Hs' _] | [_ (res & st1 & G & Hc)]];
    [congruence|].
  apply get_page_content_frame in G. destruct G as (_ & Gv & _ & extra & Gl & Gsel & _).
  assert (Gv' : visited st1 = app (visited st) [url]) by (rewrite Gv; exact Hv).
  assert (Gl' : row_urls (log st1) = row_urls (log st)).
  { rewrite Gl. cbn [emit log add_visited].
    rewrite !row_urls_app, (row_urls_selenium extra Gsel). simpl.
    rewrite !app_nil_r. reflexivity. }
  clear Gv Gl.
  destruct Hc as [E | [E | [(text & E) | (text & links & html & _ & _ & E)]]];
    rewrite E in Hit; destruct Hit as [Hit|Hit]; try discriminate; injection Hit as <-.
  - split; [exact Gv' | left; exact Gl'].
  - split; [exact Gv' | left; exact Gl'].
  - split; [exact Gv'|]. right. cbn [emit log]. rewrite row_urls_app, Gl'. reflexivity.
  - destruct (enqueue_links_frame links (emit (EvRow url text) st1)) as (V & _ & _ & L & _).
    cbn [incr_page_count visited log]. rewrite V, L.
    split; [exact Gv'|]. right. cbn [emit log]. rewrite row_urls_app, Gl'. reflexivity.
Qed.

(** The output CSV never holds two rows for the same URL, and every row
    is for a URL that has been visited (fetched). *)
Theorem scrape_one_row_per_url (cfg : Config) (w : World)
    (max_pages : option nat) (fuel : nat) :
  let st := loop_state (scrape_loop cfg w max_pages fuel (init_state cfg)) in
  NoDup (row_urls (log st)) /\ (forall u, In u (row_urls (log st)) -> In u (visited st)).
Proof.
  apply (scrape_loop_invariant cfg w max_pages
           (fun st => NoDup (row_urls (log st))
                      /\ (forall u, In u (row_urls (log st)) -> In u (visited st)))).
  - intros st url rest st' [Hn Hi] Hq Hit.
    destruct (skip_test cfg w url (set_queue rest st)) eqn:Hs.
    + destruct (scrape_iteration_shape cfg w url (set_queue rest st))
        as [[_ E] | [Hs' _]]; [|congruence].
      rewrite E in Hit. destruct Hit as [Hit|Hit]; [|discriminate].
      injection Hit as <-. split; assumption.
    + destruct (scrape_iteration_rows cfg w url (set_queue rest st) st' Hs Hit)
        as [Hv [Hr|Hr]]; simpl in Hv, Hr; rewrite Hr, Hv.
      * split; [exact Hn|]. intros u Hu. apply in_or_app. left. exact (Hi u Hu).
      * assert (Nu : ~ In url (visited st)).
        { unfold skip_test in Hs. apply orb_false_iff in Hs as [Hs _].
          simpl in Hs. rewrite <- str_mem_In. congruence. }
        split.
        -- apply NoDup_snoc; [exact Hn|]. intros Hu. exact (Nu (Hi url Hu)).
        -- intros u Hu. apply in_app_or in Hu as [Hu|[<-|[]]]; apply in_or_app.
           ++ left. exact (Hi u Hu).
           ++ right. left. reflexivity.
  - split; [constructor | intros u []].
Qed.

(** ** robots.txt *)

(** When [robots.txt] was read, no URL that the robots policy disallows
    is ever requested. *)
Theorem scrape_requests_only_allowed_urls (cfg : Config) (w : World)
    (max_pages : option nat) (fuel : nat) :
  robot_parser_completed cfg = true ->
  forall u, In u (requested_urls (log (loop_state
                   (scrape_loop cfg w max_pages fuel (init_state cfg))))) ->
  can_fetch cfg w u = true.
Proof.
  intros Hc.
  apply (scrape_loop_invariant cfg w max_pages
           (fun st => forall u, In u (requested_urls (log st)) -> can_fetch cfg w u = true)).
  - intros st url rest st' Hinv Hq Hit.
    destruct (skip_test cfg w url (set_queue rest st)) eqn:Hs.
    + destruct (scrape_iteration_shape cfg w url (set_queue rest st))
        as [[_ E] | [Hs' _]]; [|congruence].
      rewrite E in Hit. destruct Hit as [Hit|Hit]; [|discriminate].
      injection Hit as <-. exact Hinv.
    + destruct (scrape_iteration_effect cfg w url (set_queue rest st) st' _
                  Hs eq_refl Hit) as (mid & Hl & Hm & _).
      rewrite Hl, requested_urls_app, Hm. intros u Hu.
      apply in_app_or in Hu as [Hu|[<-|[]]]; [exact (Hinv u Hu)|].
      unfold skip_test in Hs. apply orb_false_iff in Hs as [_ Hs].
      rewrite Hc in Hs. apply negb_false_iff in Hs. exact Hs.
  - intros u [].
Qed.

Definition world_robots_disallow_b : World :=
  mkWorld (fun u => negb (String.eqb u "http://ex.com/b")) (fun _ => false)
          (fun h => if String.eqb h seed_markup then ["/b"; "/c"] else [])
          (fun _ => "b c") true
          (fun u => if String.eqb u "http://ex.com/"
                    then mkEnv (HttpResponse 200 seed_markup) false NavError
                    else mkEnv (HttpResponse 404 "") false NavError).

Lemma scrape_requests_only_allowed_urls_witness :
  robot_parser_completed (make_scraper "http://ex.com/" true false) = true
  /\ forall u, In u (requested_urls (log (loop_state
                 (scrape_loop (make_scraper "http://ex.com/" true false)
                    world_robots_disallow_b None 10
                    (init_state (make_scraper "http://ex.com/" true false)))))) ->
     can_fetch (make_scraper "http://ex.com/" true false) world_robots_disallow_b u = true.
Proof.
  split; [reflexivity|].
  apply scrape_requests_only_allowed_urls. reflexivity.
Defined.

Lemma scrape_iteration_ignore_robots (base : string) (rr : bool)
    (w : World) (url : string) (st : St) :
  scrape_iteration (make_scraper base false rr) w url st
  = scrape_iteration (make_scraper base false rr) (allow_all_robots w) url st.
Proof. reflexivity. Qed.

(** With [respect_robots=False] ([--ignore-robots]), the robots policy
    has no influence at all: whether or not [robots.txt] was read, the
    crawl runs exactly as with a policy that allows every URL. *)
Theorem ignore_robots_allows_all (base : string) (rr : bool) (w : World)
    (max_pages : option nat) (fuel : nat) (st : St) :
  scrape_loop (make_scraper base false rr) w max_pages fuel st
  = scrape_loop (make_scraper base false rr) (allow_all_robots w) max_pages fuel st.
Proof.
  revert st; induction fuel as [|fuel IH]; intros st; simpl; [reflexivity|].
  destruct (queue st) as [|url rest]; [reflexivity|].
  destruct (budget_left max_pages st); [|reflexivity].
  rewrite <- scrape_iteration_ignore_robots.
  destruct (scrape_iteration (make_scraper base false rr) w url (set_queue rest st));
    [apply IH | reflexivity].
Qed.

(** ** [extract_links] and [extract_text] *)

(** An [href] starting with [#], [javascript:], [mailto:] or [tel:] has
    no influence on the links of a page, wherever it stands: it is not
    resolved, not checked and cannot raise. *)
Theorem extract_links_ignores_skipped_href (cfg : Config) (pre post : list string)
    (href : string) :
  prefix "#" href || prefix "javascript:" href
  || prefix "mailto:" href || prefix "tel:" href = true ->
  extract_links_loop cfg (app pre (href :: post)) = extract_links_loop cfg (app pre post).
Proof.
  intros H. induction pre as [|a pre IH]; simpl; [rewrite H; reflexivity|].
  rewrite IH. reflexivity.
Qed.

Lemma extract_links_ignores_skipped_href_witness :
  (prefix "#" "#top" || prefix "javascript:" "#top"
   || prefix "mailto:" "#top" || prefix "tel:" "#top" = true)
  /\ extract_links_loop (make_scraper "http://ex.com/" true false)
       (app ["/a"] ("#top" :: ["/b"]))
     = extract_links_loop (make_scraper "http://ex.com/" true false) (app ["/a"] ["/b"]).
Proof.
  split; [reflexivity|].
  apply extract_links_ignores_skipped_href. reflexivity.
Defined.

Definition only_plain_spaces (s : string) : bool :=
  str_forallb (fun c => negb (is_space c) || Ascii.eqb c " ") s.

Lemma sub_ws_plain (b : bool) (s : string) : only_plain_spaces (sub_ws b s) = true.
Proof.
  unfold only_plain_spaces.
  revert b; induction s as [|c s IH]; intros b; simpl; [reflexivity|].
  destruct (is_space c) eqn:E; [destruct b|]; simpl; rewrite ?E, ?IH; reflexivity.
Qed.

Lemma lstrip_forallb (p q : ascii -> bool) (s : string) :
  str_forallb q s = true -> str_forallb q (lstrip p s) = true.
Proof.
  induction s as [|c s IH]; simpl; [reflexivity|].
  intros H. apply andb_true_iff in H as [Hc Hs].
  destruct (p c); [exact (IH Hs)|]. simpl. rewrite Hc, Hs. reflexivity.
Qed.

Lemma rstrip_forallb (p q : ascii -> bool) (s : string) :
  str_forallb q s = true -> str_forallb q (rstrip p s) = true.
Proof.
  induction s as [|c s IH]; simpl; [reflexivity|].
  intros H. apply andb_true_iff in H as [Hc Hs].
  destruct (String.eqb (rstrip p s) EmptyString && p c); [reflexivity|].
  simpl. rewrite Hc, (IH Hs). reflexivity.
Qed.

(** The text saved for a page contains no whitespace character but the
    plain space: tabs, newlines, form feeds, [\x85] and non-breaking
    spaces of the page never reach the CSV. *)
Theorem extract_text_only_plain_spaces (w : World) (html_content : option string) :
  only_plain_spaces (extract_text w html_content) = true.
Proof.
  destruct html_content as [h|]; [|reflexivity]. unfold extract_text.
  destruct (is_empty h); [reflexivity|].
  unfold strip, only_plain_spaces.
  apply rstrip_forallb, lstrip_forallb, sub_ws_plain.
Qed.

(** ** The robots.txt location ([__init__]) *)
















